(** * nb.py: the interactive image-generation session, embedded and verified

    The script [nb.py] drives an image-generation service: it lists the prompt
    files, asks the operator for a model, and for every prompt requests a master
    image, asks the operator whether to go on, and requests one image per pose.

    The embedding follows the script top to bottom.  Everything the script
    does to the outside (console, file system, clock, service, image library)
    goes through a small state-and-trace monad [M]: a computation takes the
    current [State] and returns a [result], the next state and the list of
    [event]s it emitted.  What the outside answers is fixed by an [Env] of
    oracles, so the script is an executable function of its environment.

    Python values are modelled as follows.
    - A [str] is the [string] of its code points; code points are below 256.
    - [bytes] is a [list byte].
    - An attribute that may be [None] is an [option].
    - A raised exception is [Raise e], [exit()] is [Exit]; only exceptions
      derived from [Exception] are modelled, so [except Exception] catches
      every [Raise].

    The construction of the client and the constant [config] have no effect
    the script observes and are left out. *)

From Stdlib Require Import ZArith Lia Bool Ascii String List.
From Stdlib Require Import Strings.Byte.
From stdpp Require Import base option list strings gmap pretty.

Open Scope string_scope.
Open Scope nat_scope.
Open Scope list_scope.

(** ** Python strings *)

Definition bytes := list byte.

(** [str.isspace] on a code point below 256: the ASCII white space, the
    separators U+001C..U+001F, NEL (U+0085) and NBSP (U+00A0). *)
Definition isspace (c : ascii) : bool :=
  let n := nat_of_ascii c in
  ((9 <=? n) && (n <=? 13)) || ((28 <=? n) && (n <=? 32))
  || (n =? 133) || (n =? 160).

(** [str.lower] on a code point below 256: [A-Z] and the Latin-1 capitals
    U+00C0..U+00DE (the multiplication sign U+00D7 apart) move up by 32. *)
Definition lower_char (c : ascii) : ascii :=
  let n := nat_of_ascii c in
  if ((65 <=? n) && (n <=? 90))
     || ((192 <=? n) && (n <=? 222) && negb (n =? 215))
  then ascii_of_nat (n + 32) else c.

Fixpoint lower (s : string) : string :=
  match s with
  | EmptyString => EmptyString
  | String c s' => String (lower_char c) (lower s')
  end.

Fixpoint lstrip (s : string) : string :=
  match s with
  | EmptyString => EmptyString
  | String c s' => if isspace c then lstrip s' else s
  end.

Fixpoint rstrip (s : string) : string :=
  match s with
  | EmptyString => EmptyString
  | String c s' =>
      match rstrip s' with
      | EmptyString => if isspace c then EmptyString else String c EmptyString
      | r => String c r
      end
  end.

(** [s.strip()] *)
Definition strip (s : string) : string := rstrip (lstrip s).

Fixpoint all_space (s : string) : bool :=
  match s with
  | EmptyString => true
  | String c s' => isspace c && all_space s'
  end.

(** [s.startswith(p)] *)
Fixpoint startswith (s p : string) : bool :=
  match p with
  | EmptyString => true
  | String b p' =>
      match s with
      | EmptyString => false
      | String a s' => Ascii.eqb a b && startswith s' p'
      end
  end.

(** [s] ends with [p] when [p] is [s] or a proper tail of [s]. *)
Fixpoint endswith (s p : string) : bool :=
  String.eqb s p
  || match s with
     | EmptyString => false
     | String _ s' => endswith s' p
     end.

Fixpoint contains_char (c : ascii) (s : string) : bool :=
  match s with
  | EmptyString => false
  | String a s' => Ascii.eqb a c || contains_char c s'
  end.

(** [s.rfind(c)] counted from [i], the index of the head of [s]: the index of
    the last occurrence, [-1] when there is none. *)
Fixpoint rfind_from (c : ascii) (s : string) (i : Z) : Z :=
  match s with
  | EmptyString => (-1)%Z
  | String a s' =>
      let r := rfind_from c s' (i + 1)%Z in
      if (0 <=? r)%Z then r else if Ascii.eqb a c then i else (-1)%Z
  end.

Definition rfind (c : ascii) (s : string) : Z := rfind_from c s 0%Z.

(** [s[:n]] for [0 <= n] *)
Definition take_str (n : nat) (s : string) : string := String.substring 0 n s.

(** [s[lo:hi]] for [0 <= lo] *)
Definition slice_str (lo hi : nat) (s : string) : string :=
  String.substring lo (hi - lo) s.

(** ** [os.path] (posixpath) *)

(** One step of [os.path.join]: an absolute component replaces what came
    before; otherwise it is appended, after a separator when one is needed. *)
Definition join2 (path b : string) : string :=
  if startswith b "/" then b
  else if String.eqb path "" || endswith path "/" then path +:+ b
  else path +:+ "/" +:+ b.

Definition path_join (a : string) (p : list string) : string :=
  fold_left join2 p a.

Fixpoint all_dots (s : string) : bool :=
  match s with
  | EmptyString => true
  | String c s' => Ascii.eqb c "." && all_dots s'
  end.

(** [os.path.splitext(p)[0]]: the last dot splits off the extension when it
    comes after the last separator and after a character of the file name that
    is not a dot (leading dots belong to the root). *)
Definition splitext_root (p : string) : string :=
  let sepIndex := rfind "/" p in
  let dotIndex := rfind "." p in
  if (sepIndex <? dotIndex)%Z
     && negb (all_dots (slice_str (Z.to_nat (sepIndex + 1)) (Z.to_nat dotIndex) p))
  then take_str (Z.to_nat dotIndex) p
  else p.

(** ** Exceptions and results *)

Inductive exn :=
| AttributeError
| UnidentifiedImageError
| ImageSaveError
| FileExistsError
| FileNotFoundError
| NotADirectoryError
| IsADirectoryError
| UnicodeDecodeError
| EOFError
| ServiceError (code : nat).

Inductive result (A : Type) :=
| Ret (a : A)
| Raise (e : exn)
| Exit.

Arguments Ret {A} a.
Arguments Raise {A} e.
Arguments Exit {A}.

(** ** The file system *)

Inductive node :=
| Dir
| File (content : bytes).

(** A flat file system: full path to node. *)
Abbreviation FS := (gmap string node).

(** The chain of directories [os.makedirs] walks for a path: every prefix that
    ends before a separator, then the path itself. *)
Fixpoint dir_chain (pre rest : string) : list string :=
  match rest with
  | EmptyString => [pre]
  | String c rest' =>
      if Ascii.eqb c "/"
      then (if String.eqb pre "" then [] else [pre]) ++ dir_chain (pre +:+ "/") rest'
      else dir_chain (pre +:+ String c "") rest'
  end.

(** [os.makedirs(p, exist_ok=True)] along a chain: a directory that exists is
    kept, a missing one is created, a file in the way raises. *)
Fixpoint mkdir_chain (fs : FS) (chain : list string) : result unit * FS :=
  match chain with
  | [] => (Ret tt, fs)
  | p :: rest =>
      match fs !! p with
      | Some Dir => mkdir_chain fs rest
      | Some (File _) =>
          (Raise (match rest with [] => FileExistsError | _ => NotADirectoryError end), fs)
      | None => mkdir_chain (<[p := Dir]> fs) rest
      end
  end.

Definition makedirs_fs (fs : FS) (p : string) : result unit * FS :=
  mkdir_chain fs (dir_chain "" p).

(** The name of [k] inside directory [d], when [k] is a direct entry of [d]. *)
Definition child_name (d k : string) : option string :=
  let pre := d +:+ "/" in
  if startswith k pre then
    let n := String.substring (String.length pre) (String.length k - String.length pre) k in
    if String.eqb n "" || contains_char "/" n then None else Some n
  else None.

(** [os.listdir(d)]; the order is the one the map enumerates. *)
Definition listdir_fs (fs : FS) (d : string) : result (list string) :=
  match fs !! d with
  | None => Raise FileNotFoundError
  | Some (File _) => Raise NotADirectoryError
  | Some Dir => Ret (omap (child_name d) (map fst (map_to_list fs)))
  end.

(** [open(p, 'rb').read()] *)
Definition read_fs (fs : FS) (p : string) : result bytes :=
  match fs !! p with
  | None => Raise FileNotFoundError
  | Some Dir => Raise IsADirectoryError
  | Some (File b) => Ret b
  end.

(** ** Service requests and responses

    The response classes of the service's client library, as far as the
    script reads them; each attribute may be [None]. *)

Record Blob := { data : option bytes; mime_type : option string }.
Record Part := { inline_data : option Blob; text : option string }.
Record Content := { parts : option (list Part) }.
Record Candidate := { content : option Content }.
Record Response := { candidates : option (list Candidate) }.

(** A [generate_content] call: the model and the two items of [contents], an
    image part (bytes and MIME type) and the instruction text.  The [config]
    argument is the same constant in every call and is left out. *)
Record Request := {
  model : string;
  image_data : bytes;
  image_mime : string;
  instruction : string
}.

(** ** Console messages and events *)

(** What the script prints, one constructor per [print] statement; the
    comment gives the text, without its leading symbol and indentation. *)
Inductive msg :=
| MsgNoApiKey                            (* Error: API Key not found. Check your .env file! *)
| MsgSaved (path : string)               (* Saved: {path} *)
| MsgNoFace                              (* ERROR: Face reference not found at {REF_FACE_PATH} *)
| MsgNoTxt                               (* No .txt files in {PROMPTS_FOLDER} *)
| MsgMenuTitle                           (* --- MODEL SELECTION --- *)
| MsgMenuFlash                           (* 1: Gemini 2.5 Flash (...) *)
| MsgMenuPro                             (* 2: Gemini 3 Pro     (...) *)
| MsgUsingModel (m : string)             (* Using Model: {SELECTED_MODEL} *)
| MsgFound (n : nat)                     (* Found {len(files)} prompts. Starting ... *)
| MsgRule                                (* ------------------------------------ *)
| MsgProcessing (filename : string)      (* Processing: {filename} *)
| MsgPrompt (head : string)              (* Prompt: {prompt_text[:60]}... *)
| MsgSavingTo (clean_name : string) (run_id : Z)  (* Saving to: .../{clean_name}/run_{run_id}/ *)
| MsgGenConcept (m : string)             (* Generating Concept Image using {SELECTED_MODEL}... *)
| MsgConceptError (e : exn)              (* Error generating concept: {e} *)
| MsgConceptSkipped                      (* Failed to generate concept image. Skipping. *)
| MsgCheckImage (path : string)          (* Check the image at: {master_path} *)
| MsgSkipPoses                           (* Skipping poses. Moving to next prompt. *)
| MsgGenPoses (n : nat) (m : string)     (* Generating {len(POSES)} poses using {SELECTED_MODEL}... *)
| MsgPoseHeader (i n : nat) (pose : string)  (* [{i+1}/{len(POSES)}] {pose}... *)
| MsgPoseFailed (e : exn)                (* Pose failed: {e} *)
| MsgAllPoses (clean_name : string)      (* All poses finished for {clean_name}. *)
| MsgComplete.                           (* Session Complete. *)

(** The two questions the script asks with [input]. *)
Inductive question :=
| AskModel
| AskPoses (clean_name : string).

Inductive event :=
| EPrint (m : msg)
| EInput (q : question)
| EMakedirs (path : string)
| ERequest (r : Request)
| EWrite (path : string) (content : bytes)
| ESleep (secs : nat).

(** ** The environment and the state *)

(** What the outside answers.  [generate_content n r] is the outcome of the
    [n]-th call of the session, [input_line n] the [n]-th line typed ([None]
    at end of input), [time_time n] the [n]-th reading of [int(time.time())].
    [Image_open] is [Image.open(BytesIO(b))] and [Image_save] is what
    [img.save(path)] writes; [None] stands for a raised exception.
    [POSES] is the list imported from the module [pose]. *)
Record Env := {
  image : Type;
  API_KEY : option string;
  POSES : list string;
  generate_content : nat -> Request -> exn + Response;
  input_line : nat -> option string;
  time_time : nat -> Z;
  Image_open : bytes -> option image;
  Image_save : image -> string -> option bytes;
  decode_text : bytes -> option string
}.

Record State := {
  fs : FS;
  calls : nat;
  inputs : nat;
  ticks : nat
}.

Definition set_fs (f : FS) (s : State) : State :=
  {| fs := f; calls := calls s; inputs := inputs s; ticks := ticks s |}.

Definition next_call (s : State) : State :=
  {| fs := fs s; calls := S (calls s); inputs := inputs s; ticks := ticks s |}.

Definition next_input (s : State) : State :=
  {| fs := fs s; calls := calls s; inputs := S (inputs s); ticks := ticks s |}.

Definition next_tick (s : State) : State :=
  {| fs := fs s; calls := calls s; inputs := inputs s; ticks := S (ticks s) |}.

(** ** The monad *)

Definition M (A : Type) : Type := State -> result A * State * list event.

Definition ret {A} (a : A) : M A := fun s => (Ret a, s, []).

Definition raise {A} (e : exn) : M A := fun s => (Raise e, s, []).

(** [exit()] *)
Definition exit {A} : M A := fun s => (Exit, s, []).

Definition bind {A B} (m : M A) (f : A -> M B) : M B := fun s =>
  match m s with
  | (Ret a, s1, t1) => let '(r, s2, t2) := f a s1 in (r, s2, t1 ++ t2)
  | (Raise e, s1, t1) => (Raise e, s1, t1)
  | (Exit, s1, t1) => (Exit, s1, t1)
  end.

(** [try: m  except Exception as e: h e] *)
Definition try_except {A} (m : M A) (h : exn -> M A) : M A := fun s =>
  match m s with
  | (Raise e, s1, t1) => let '(r, s2, t2) := h e s1 in (r, s2, t1 ++ t2)
  | other => other
  end.

Declare Scope py_scope.
Delimit Scope py_scope with py.
Notation "x <- y ; z" := (bind y (fun x => z))
  (at level 20, y at level 100, z at level 200, only parsing) : py_scope.
Notation "y ;; z" := (bind y (fun _ => z))
  (at level 100, z at level 200, only parsing, right associativity) : py_scope.
Open Scope py_scope.

Definition emit (e : event) : M unit := fun s => (Ret tt, s, [e]).

Definition print (m : msg) : M unit := emit (EPrint m).

(** [time.sleep(n)] *)
Definition sleep (n : nat) : M unit := emit (ESleep n).

(** [os.makedirs(p, exist_ok=True)] *)
Definition makedirs (p : string) : M unit := fun s =>
  let '(r, f) := makedirs_fs (fs s) p in (r, set_fs f s, [EMakedirs p]).

(** [os.path.exists(p)] *)
Definition path_exists (p : string) : M bool := fun s =>
  (Ret (match fs s !! p with Some _ => true | None => false end), s, []).

Definition listdir (d : string) : M (list string) := fun s =>
  (listdir_fs (fs s) d, s, []).

Definition read_bytes (p : string) : M bytes := fun s =>
  (read_fs (fs s) p, s, []).

(** [input(q)]: the next line typed, [EOFError] at end of input. *)
Definition input (env : Env) (q : question) : M string := fun s =>
  (match input_line env (inputs s) with Some l => Ret l | None => Raise EOFError end,
   next_input s, [EInput q]).

(** [int(time.time())] *)
Definition now (env : Env) : M Z := fun s =>
  (Ret (time_time env (ticks s)),
   next_tick s, []).

(** [client.models.generate_content(...)] *)
Definition call_service (env : Env) (r : Request) : M Response := fun s =>
  (match generate_content env (calls s) r with inl e => Raise e | inr resp => Ret resp end,
   next_call s, [ERequest r]).

(** [img = Image.open(BytesIO(b))] *)
Definition open_image (env : Env) (b : option bytes) : M (image env) := fun s =>
  (match Image_open env (default [] b) with
   | Some img => Ret img
   | None => Raise UnidentifiedImageError
   end, s, []).

(** [img.save(path)] *)
Definition save_to (env : Env) (img : image env) (path : string) : M unit := fun s =>
  match Image_save env img path with
  | Some enc => (Ret tt, set_fs (<[path := File enc]> (fs s)) s, [EWrite path enc])
  | None => (Raise ImageSaveError, s, [])
  end.

(** ** The script *)

Definition REF_FACE_PATH : string := "reference image face".
Definition PROMPTS_FOLDER : string := "prompts".
Definition OUTPUT_BASE : string := "output folder".

Definition MODELS : gmap string string :=
  <["1" := "gemini-2.5-flash-image"]> (<["2" := "gemini-3-pro-image-preview"]> ∅).

(** Python's truth value of an optional [bytes]: [None] and [b''] are false. *)
Definition truthy (b : option bytes) : bool :=
  match b with
  | Some (_ :: _) => true
  | _ => false
  end.

(** The [for part in ...parts] loop of [save_image]. *)
Fixpoint scan_parts (env : Env) (ps : list Part) (path : string) : M (option bytes) :=
  match ps with
  | [] => ret None
  | part :: rest =>
      match inline_data part with
      | Some blob =>
          img <- open_image env (data blob);
          save_to env img path;;
          print (MsgSaved path);;
          ret (data blob)
      | None => scan_parts env rest path
      end
  end.

(** [save_image(response, path)]: [Ret None] is Python's [None]. *)
Definition save_image (env : Env) (response : Response) (path : string) : M (option bytes) :=
  match candidates response with
  | None | Some [] => ret None
  | Some (c :: _) =>
      match content c with
      | None => raise AttributeError
      | Some ct =>
          match parts ct with
          | None | Some [] => ret None
          | Some ps => scan_parts env ps path
          end
      end
  end.

(** [MODELS.get(choice, "gemini-2.5-flash-image")] *)
Definition SELECTED_MODEL (choice : string) : string :=
  default "gemini-2.5-flash-image" (MODELS !! choice).

(** The model resolved from the line the operator typed:
    [choice = input(...).strip()], then the lookup. *)
Definition resolve_model (line : string) : string := SELECTED_MODEL (strip line).

(** The operator gate: [input(...).strip().lower() == 'y']. *)
Definition user_choice (line : string) : string := lower (strip line).

Definition poses_confirmed (line : string) : bool := String.eqb (user_choice line) "y".

Definition nl : string := String (ascii_of_nat 10) "".

Definition master_prompt (prompt_text : string) : string :=
  nl +:+ "    Fashion photography of [the person in the reference image]." +:+ nl
  +:+ "    " +:+ prompt_text +:+ nl
  +:+ "    CRITICAL: Maintain the facial identity of the reference image exactly." +:+ nl
  +:+ "    ".

Definition pose_prompt (pose : string) : string :=
  nl +:+ "        TASK: Create a variation of the [ATTACHED IMAGE]." +:+ nl
  +:+ "        " +:+ nl
  +:+ "        INSTRUCTIONS:" +:+ nl
  +:+ "        1. Keep the exact character (face, hair, clothes) from the [ATTACHED IMAGE]." +:+ nl
  +:+ "        2. Keep the exact background environment from the [ATTACHED IMAGE]." +:+ nl
  +:+ "        3. CHANGE ONLY THE POSE to: " +:+ pose +:+ "." +:+ nl
  +:+ "        ".

Definition pose_request (sel : string) (master_image_bytes : bytes) (pose : string) : Request :=
  {| model := sel; image_data := master_image_bytes; image_mime := "image/png";
     instruction := pose_prompt pose |}.

Definition master_request (sel : string) (face_bytes : bytes) (prompt_text : string) : Request :=
  {| model := sel; image_data := face_bytes; image_mime := "image/jpeg";
     instruction := master_prompt prompt_text |}.

(** [os.path.join(current_output_dir, f"pose_{i+1}.png")] *)
Definition pose_filename (dir : string) (i : nat) : string :=
  path_join dir ["pose_" +:+ pretty (i + 1) +:+ ".png"].

(** One turn of [for i, pose in enumerate(POSES)]. *)
Definition pose_step (env : Env) (sel : string) (master_image_bytes : bytes)
    (dir : string) (n i : nat) (pose : string) : M unit :=
  print (MsgPoseHeader (i + 1) n pose);;
  try_except
    (response <- call_service env (pose_request sel master_image_bytes pose);
     save_image env response (pose_filename dir i);;
     sleep 2)
    (fun e => print (MsgPoseFailed e)).

(** [for i, pose in enumerate(POSES)], from index [i] on. *)
Fixpoint pose_loop (env : Env) (sel : string) (master_image_bytes : bytes)
    (dir : string) (n i : nat) (poses : list string) : M unit :=
  match poses with
  | [] => ret tt
  | pose :: rest =>
      pose_step env sel master_image_bytes dir n i pose;;
      pose_loop env sel master_image_bytes dir n (S i) rest
  end.

Definition clean_name (filename : string) : string := splitext_root filename.

(** [os.path.join(OUTPUT_BASE, clean_name, f"run_{run_id}")] *)
Definition current_output_dir (filename : string) (run_id : Z) : string :=
  path_join OUTPUT_BASE [clean_name filename; "run_" +:+ pretty run_id].

Definition master_path (dir : string) : string :=
  path_join dir ["00_MASTER_CONCEPT.png"].

(** [open(txt_path, "r").read()] *)
Definition read_text (env : Env) (p : string) : M string :=
  raw <- read_bytes p;
  match decode_text env raw with
  | Some t => ret t
  | None => raise UnicodeDecodeError
  end.

(** Step 1 of the loop body: the master request and its [try]/[except].
    [None] is the [continue] of the handler. *)
Definition master_step (env : Env) (sel : string) (face_bytes : bytes)
    (prompt_text dir : string) : M (option (option bytes)) :=
  try_except
    (response <- call_service env (master_request sel face_bytes prompt_text);
     master_image_bytes <- save_image env response (master_path dir);
     ret (Some master_image_bytes))
    (fun e => print (MsgConceptError e);; ret None).

(** Steps 2 and 3: the question to the operator and the poses. *)
Definition pose_stage (env : Env) (sel : string) (master_image_bytes : bytes)
    (filename dir : string) : M unit :=
  print (MsgCheckImage (master_path dir));;
  line <- input env (AskPoses (clean_name filename));
  if negb (poses_confirmed line) then print MsgSkipPoses
  else
    print (MsgGenPoses (length (POSES env)) sel);;
    pose_loop env sel master_image_bytes dir (length (POSES env)) 0 (POSES env);;
    print (MsgAllPoses (clean_name filename)).

(** Steps 1 to 3 of the loop body, from the master request on; a [continue]
    ends them with [Ret tt]. *)
Definition generate_for_prompt (env : Env) (sel : string) (face_bytes : bytes)
    (filename dir prompt_text : string) : M unit :=
  r <- master_step env sel face_bytes prompt_text dir;
  match r with
  | None => ret tt
  | Some master_image_bytes =>
      if negb (truthy master_image_bytes) then print MsgConceptSkipped
      else pose_stage env sel (default [] master_image_bytes) filename dir
  end.

(** The loop body once the run directory is there: the prompt is read and
    announced, then generated. *)
Definition prompt_body (env : Env) (sel : string) (face_bytes : bytes)
    (filename dir : string) (run_id : Z) : M unit :=
  let txt_path := path_join PROMPTS_FOLDER [filename] in
  text <- read_text env txt_path;
  let prompt_text := strip text in
  print MsgRule;;
  print (MsgProcessing filename);;
  print (MsgPrompt (take_str 60 prompt_text));;
  print (MsgSavingTo (clean_name filename) run_id);;
  print (MsgGenConcept sel);;
  generate_for_prompt env sel face_bytes filename dir prompt_text.

(** The body of [for filename in files]. *)
Definition process_prompt (env : Env) (sel : string) (face_bytes : bytes)
    (filename : string) : M unit :=
  run_id <- now env;
  let dir := current_output_dir filename run_id in
  makedirs dir;;
  prompt_body env sel face_bytes filename dir run_id.

Fixpoint for_each {A} (l : list A) (body : A -> M unit) : M unit :=
  match l with
  | [] => ret tt
  | x :: rest => body x;; for_each rest body
  end.

(** [files = [f for f in os.listdir(PROMPTS_FOLDER) if f.endswith(".txt")]] *)
Definition txt_files (names : list string) : list string :=
  List.filter (fun f => endswith f ".txt") names.

(** The part of the script after the prompt files are found. *)
Definition session (env : Env) (face_bytes : bytes) (files : list string) : M unit :=
  print MsgMenuTitle;;
  print MsgMenuFlash;;
  print MsgMenuPro;;
  line <- input env AskModel;
  let sel := resolve_model line in
  print (MsgUsingModel sel);;
  print (MsgFound (length files));;
  for_each files (process_prompt env sel face_bytes);;
  print MsgComplete.

(** The script from the check of the reference face on. *)
Definition interactive_loop (env : Env) : M unit :=
  found <- path_exists REF_FACE_PATH;
  if negb found then print MsgNoFace;; exit
  else
    face_bytes <- read_bytes REF_FACE_PATH;
    names <- listdir PROMPTS_FOLDER;
    let files := txt_files names in
    match files with
    | [] => print MsgNoTxt;; exit
    | _ => session env face_bytes files
    end.

(** The whole script: the API key, the two directories, then the loop. *)
Definition main (env : Env) : M unit :=
  match API_KEY env with
  | None | Some EmptyString => print MsgNoApiKey;; exit
  | Some _ =>
      makedirs PROMPTS_FOLDER;;
      makedirs OUTPUT_BASE;;
      interactive_loop env
  end.

(** ** Reading a run *)

Definition result_of {A} (x : result A * State * list event) : result A := x.1.1.
Definition state_of {A} (x : result A * State * list event) : State := x.1.2.
Definition trace_of {A} (x : result A * State * list event) : list event := x.2.

(** The service calls of a trace, in order. *)
Definition requests (t : list event) : list Request :=
  omap (fun e => match e with ERequest r => Some r | _ => None end) t.

(** A pose request attaches its image as PNG, the master request as JPEG. *)
Definition is_pose_request (q : Request) : bool := String.eqb (image_mime q) "image/png".

Definition pose_requests (t : list event) : list Request :=
  List.filter is_pose_request (requests t).

(** The paths of the files a trace writes, in order. *)
Definition written_paths (t : list event) : list string :=
  omap (fun e => match e with EWrite p _ => Some p | _ => None end) t.

(** The directories a trace asks [os.makedirs] for, in order. *)
Definition made_dirs (t : list event) : list string :=
  omap (fun e => match e with EMakedirs p => Some p | _ => None end) t.

(** A trace pauses between requests when a [time.sleep] lies between any two
    successive service calls; [pending] says a call is waiting for its pause. *)
Fixpoint paused_between (pending : bool) (t : list event) : bool :=
  match t with
  | [] => true
  | ERequest _ :: t' => negb pending && paused_between true t'
  | ESleep _ :: t' => paused_between false t'
  | _ :: t' => paused_between pending t'
  end.

(** The shape of a trace of the pose loop: every turn prints its header and
    calls the service; then either the image is saved (or not found) and the
    script sleeps two seconds, or the failure is printed and nothing else. *)
Inductive pose_trace : list event -> Prop :=
| pose_trace_nil : pose_trace []
| pose_trace_found i n pose q p enc rest :
    pose_trace rest ->
    pose_trace (EPrint (MsgPoseHeader i n pose) :: ERequest q :: EWrite p enc
                :: EPrint (MsgSaved p) :: ESleep 2 :: rest)
| pose_trace_empty i n pose q rest :
    pose_trace rest ->
    pose_trace (EPrint (MsgPoseHeader i n pose) :: ERequest q :: ESleep 2 :: rest)
| pose_trace_failed i n pose q e rest :
    pose_trace rest ->
    pose_trace (EPrint (MsgPoseHeader i n pose) :: ERequest q
                :: EPrint (MsgPoseFailed e) :: rest).

(** The kinds of event a pose loop emits. *)
Definition pose_trace_event (e : event) : Prop :=
  match e with
  | EPrint (MsgPoseHeader _ _ _) | EPrint (MsgSaved _) | EPrint (MsgPoseFailed _)
  | ERequest _ | EWrite _ _ | ESleep _ => True
  | _ => False
  end.

(** The lines that answer yes: a [y] or [Y] with white space around it. *)
Definition y_form (line : string) : Prop :=
  exists l r c, line = l +:+ String c r /\ all_space l = true /\ all_space r = true
                /\ (c = "y"%char \/ c = "Y"%char).

(** The questions a trace asks the operator, in order. *)
Definition asked (t : list event) : list question :=
  omap (fun e => match e with EInput q => Some q | _ => None end) t.

(** What a trace prints, in order. *)
Definition printed (t : list event) : list msg :=
  omap (fun e => match e with EPrint m => Some m | _ => None end) t.

(** A directory path to which a file name is joined with one separator. *)
Definition plain_dir (d : string) : Prop := d <> "" /\ endswith d "/" = false.

(** The image bytes the master step of a prompt yields, if any: the service
    answers the master request, and [save_image] saves an image and returns
    bytes that are not empty. *)
Definition master_bytes (env : Env) (sel : string) (face_bytes : bytes)
    (prompt_text dir : string) (s : State) : option bytes :=
  match generate_content env (calls s) (master_request sel face_bytes prompt_text) with
  | inl _ => None
  | inr response =>
      match save_image env response (master_path dir) (next_call s) with
      | (Ret (Some (b :: bs)), _, _) => Some (b :: bs)
      | _ => None
      end
  end.

(** The three ways [save_image] can end: it raises, it finds nothing, or it
    writes one file, prints one line and returns the data of the part. *)
Inductive save_outcome (path : string) (s : State) :
  result (option bytes) * State * list event -> Prop :=
| save_raises e : save_outcome path s (Raise e, s, [])
| save_not_found : save_outcome path s (Ret None, s, [])
| save_written b enc :
    save_outcome path s
      (Ret b, set_fs (<[path := File enc]> (fs s)) s, [EWrite path enc; EPrint (MsgSaved path)]).

(** The response holds an image that [save_image] saves at [path]: the file
    gets [enc] and the bytes [d] come back, in whatever state it runs. *)
Definition yields_image (env : Env) (response : Response) (path : string)
    (d enc : bytes) : Prop :=
  forall s,
    save_image env response path s
    = (Ret (Some d), set_fs (<[path := File enc]> (fs s)) s,
       [EWrite path enc; EPrint (MsgSaved path)]).

(** Every file of [f] is still a file in [f']. *)
Definition files_kept (f f' : FS) : Prop :=
  forall p b, f !! p = Some (File b) -> exists b', f' !! p = Some (File b').

(** Every event of every run of [m] satisfies [P]. *)
Definition emits {A} (P : event -> Prop) (m : M A) : Prop :=
  forall s, Forall P (trace_of (m s)).

Definition not_makedirs (e : event) : Prop :=
  match e with EMakedirs _ => False | _ => True end.

(** [m] leaves the clock alone: it reads no time. *)
Definition keeps_clock {A} (m : M A) : Prop :=
  forall s, ticks (state_of (m s)) = ticks s.

(** The run directories of the prompt files [files] when the first of them
    starts at clock reading number [k]: one reading per file, in order. *)
Definition run_dirs (env : Env) (files : list string) (k : nat) : list string :=
  zip_with (fun f j => current_output_dir f (time_time env j)) files (seq k (length files)).

(** The exceptions of the file system, of reading text and of the console:
    those the script does not catch anywhere. *)
Definition uncaught_kind (e : exn) : Prop :=
  match e with
  | FileExistsError | FileNotFoundError | NotADirectoryError | IsADirectoryError
  | UnicodeDecodeError | EOFError => True
  | AttributeError | UnidentifiedImageError | ImageSaveError | ServiceError _ => False
  end.

Definition not_complete (e : event) : Prop :=
  match e with EPrint MsgComplete => False | _ => True end.

(** ** A small environment for the examples

    The image library accepts any non-empty data and writes it unchanged to a
    path that ends in [.png]; the clock starts at 1700000000. *)

Definition image_part (b : bytes) : Part :=
  {| inline_data := Some {| data := Some b; mime_type := Some "image/png" |}; text := None |}.

Definition text_part (t : string) : Part :=
  {| inline_data := None; text := Some t |}.

Definition response_of (ps : list Part) : Response :=
  {| candidates := Some [ {| content := Some {| parts := Some ps |} |} ] |}.

(** A response without candidates, and one whose candidate has no content. *)
Definition empty_response : Response := {| candidates := Some [] |}.
Definition blocked_response : Response := {| candidates := Some [ {| content := None |} ] |}.

Definition demo_env (poses : list string) (svc : nat -> Request -> exn + Response)
    (lines : list string) : Env :=
  {| image := bytes;
     API_KEY := Some "key";
     POSES := poses;
     generate_content := svc;
     input_line := fun n => lines !! n;
     time_time := fun n => (1700000000 + Z.of_nat n)%Z;
     Image_open := fun b => match b with [] => None | _ => Some b end;
     Image_save := fun img path => if endswith path ".png" then Some img else None;
     decode_text := fun b => Some (string_of_list_byte b) |}.

Definition start (f : FS) : State := {| fs := f; calls := 0; inputs := 0; ticks := 0 |}.

Definition demo_fs : FS :=
  <["reference image face" := File [x01%byte]]>
    (<["prompts" := Dir]>
       (<["prompts/winter.txt" := File (list_byte_of_string "A red coat in snow.")]> ∅)).

(** Service scripts: every call answers with an image; every call fails; the
    call number [k] answers without an image and the others with one. *)
Definition always_image : nat -> Request -> exn + Response :=
  fun _ _ => inr (response_of [text_part "here"; image_part [x02%byte]]).

Definition always_fails : nat -> Request -> exn + Response :=
  fun n _ => inl (ServiceError n).

Definition no_image_at (k : nat) : nat -> Request -> exn + Response :=
  fun n q => if n =? k then inr empty_response else always_image n q.

(** * Properties *)

(** ** Strings *)

Example strip_examples :
  strip "  y " = "y" /\ strip "" = "" /\ strip " a b " = "a b"
  /\ strip (nl +:+ "2" +:+ nl) = "2".
Proof. repeat split. Qed.

Example lower_examples : lower "Yes" = "yes" /\ lower "y" = "y" /\ lower "1" = "1".
Proof. repeat split. Qed.

Example splitext_examples :
  splitext_root "winter.txt" = "winter" /\ splitext_root "a.b.txt" = "a.b"
  /\ splitext_root ".txt" = ".txt" /\ splitext_root "notes" = "notes".
Proof. repeat split. Qed.

Example path_join_examples :
  path_join "output folder" ["winter"; "run_17"] = "output folder/winter/run_17"
  /\ path_join "a/" ["b"] = "a/b" /\ path_join "a" ["/b"; "c"] = "/b/c".
Proof. repeat split. Qed.

Example endswith_examples :
  endswith "winter.txt" ".txt" = true /\ endswith "txt" ".txt" = false
  /\ endswith "a.txt.bak" ".txt" = false.
Proof. repeat split. Qed.

Lemma append_nil (u : string) : "" +:+ u = u.
Proof. reflexivity. Qed.

Lemma append_cons (c : ascii) (l u : string) : String c l +:+ u = String c (l +:+ u).
Proof. reflexivity. Qed.

Lemma append_nil_r (u : string) : u +:+ "" = u.
Proof. induction u as [|c u IH]; [reflexivity|]. now rewrite append_cons, IH. Qed.

Lemma append_assoc (a b c : string) : (a +:+ b) +:+ c = a +:+ b +:+ c.
Proof. induction a as [|x a IH]; [reflexivity|]. now rewrite !append_cons, IH. Qed.

Lemma lower_char_y (c : ascii) :
  lower_char c = "y"%char <-> c = "y"%char \/ c = "Y"%char.
Proof.
  split.
  - destruct c as [[] [] [] [] [] [] [] []]; vm_compute; intros H;
      first [discriminate H | now left | now right].
  - intros [-> | ->]; reflexivity.
Qed.

Lemma lower_y (s : string) :
  lower s = "y" <-> exists c, s = String c "" /\ (c = "y"%char \/ c = "Y"%char).
Proof.
  split.
  - destruct s as [|c [|c' s']]; simpl; try discriminate.
    intros H. injection H as H. exists c. split; [reflexivity|]. now apply lower_char_y.
  - intros (c & -> & Hc). simpl. f_equal. now apply lower_char_y.
Qed.

Lemma lstrip_decomp (s : string) :
  exists l, s = l +:+ lstrip s /\ all_space l = true.
Proof.
  induction s as [|c s IH]; simpl.
  - exists "". split; reflexivity.
  - destruct (isspace c) eqn:Hc.
    + destruct IH as (l & Hl & Hsp). exists (String c l). simpl. rewrite Hc.
      rewrite append_cons. split; [congruence | exact Hsp].
    + exists "". split; reflexivity.
Qed.

Lemma rstrip_decomp (s : string) :
  exists r, s = rstrip s +:+ r /\ all_space r = true.
Proof.
  induction s as [|c s IH]; simpl.
  - exists "". split; reflexivity.
  - destruct IH as (r & Hr & Hsp). destruct (rstrip s) as [|c' u] eqn:Hu.
    + destruct (isspace c) eqn:Hc.
      * exists (String c r). simpl. rewrite Hc. rewrite append_nil in *.
        split; [congruence | exact Hsp].
      * exists r. rewrite append_cons, append_nil in *. split; [congruence | exact Hsp].
    + exists r. rewrite append_cons. split; [congruence | exact Hsp].
Qed.

Lemma lstrip_spaces (l u : string) :
  all_space l = true -> lstrip (l +:+ u) = lstrip u.
Proof.
  induction l as [|c l IH]; [reflexivity|].
  rewrite append_cons. simpl.
  intros H. apply andb_true_iff in H as [Hc Hl]. rewrite Hc. now apply IH.
Qed.

Lemma rstrip_spaces (r : string) : all_space r = true -> rstrip r = "".
Proof.
  induction r as [|c r IH]; simpl; [reflexivity|].
  intros H. apply andb_true_iff in H as [Hc Hr]. now rewrite (IH Hr), Hc.
Qed.

Lemma strip_y_form (l r : string) (c : ascii) :
  all_space l = true -> all_space r = true -> isspace c = false ->
  strip (l +:+ String c r) = String c "".
Proof.
  intros Hl Hr Hc. unfold strip. rewrite (lstrip_spaces _ _ Hl). simpl. rewrite Hc.
  simpl. now rewrite (rstrip_spaces _ Hr), Hc.
Qed.

Lemma poses_confirmed_y_form (line : string) :
  poses_confirmed line = true <-> y_form line.
Proof.
  unfold poses_confirmed, user_choice. rewrite String.eqb_eq, lower_y. split.
  - intros (c & Hs & Hc). unfold strip in Hs.
    destruct (lstrip_decomp line) as (l & Hl & Hsl).
    destruct (rstrip_decomp (lstrip line)) as (r & Hr & Hsr).
    rewrite Hs in Hr. exists l, r, c. rewrite Hl at 1. rewrite Hr at 1.
    rewrite append_cons, append_nil. repeat split; assumption.
  - intros (l & r & c & -> & Hl & Hr & Hc). exists c. split; [|exact Hc].
    apply strip_y_form; [assumption..|]. now destruct Hc as [-> | ->].
Qed.

(** ** The monad *)

Lemma run_eta {A} (x : result A * State * list event) :
  x = (result_of x, state_of x, trace_of x).
Proof. now destruct x as [[r s] t]. Qed.

Lemma bind_ret {A B} (m : M A) (f : A -> M B) (s s1 : State) (a : A) (t1 : list event) :
  m s = (Ret a, s1, t1) ->
  bind m f s = (result_of (f a s1), state_of (f a s1), t1 ++ trace_of (f a s1)).
Proof. unfold bind. intros ->. now destruct (f a s1) as [[r s2] t2]. Qed.

Lemma bind_raise {A B} (m : M A) (f : A -> M B) (s s1 : State) (e : exn) (t1 : list event) :
  m s = (Raise e, s1, t1) -> bind m f s = (Raise e, s1, t1).
Proof. unfold bind. now intros ->. Qed.

Lemma bind_exit {A B} (m : M A) (f : A -> M B) (s s1 : State) (t1 : list event) :
  m s = (Exit, s1, t1) -> bind m f s = (Exit, s1, t1).
Proof. unfold bind. now intros ->. Qed.

(** ** [save_image] *)

Lemma scan_parts_outcome (env : Env) (ps : list Part) (path : string) (s : State) :
  save_outcome path s (scan_parts env ps path s).
Proof.
  induction ps as [|part rest IH]; simpl.
  - constructor.
  - destruct (inline_data part) as [blob|]; [|exact IH].
    unfold bind, open_image, save_to, print, emit, ret.
    destruct (Image_open env (default [] (data blob))) as [img|]; [|constructor].
    destruct (Image_save env img path) as [enc|]; simpl; constructor.
Qed.

Lemma save_image_outcome (env : Env) (response : Response) (path : string) (s : State) :
  save_outcome path s (save_image env response path s).
Proof.
  unfold save_image.
  destruct (candidates response) as [[|c cs]|]; try constructor.
  destruct (content c) as [ct|]; [|constructor].
  destruct (parts ct) as [[|p ps]|]; try constructor.
  apply scan_parts_outcome.
Qed.

(** With a content that has parts, [save_image] is the loop over the parts. *)
Lemma save_image_scan (env : Env) (response : Response) (path : string)
    (c : Candidate) (cs : list Candidate) (ct : Content) (ps : list Part) :
  candidates response = Some (c :: cs) -> content c = Some ct -> parts ct = Some ps ->
  save_image env response path = scan_parts env ps path.
Proof.
  intros Hc Hct Hps. unfold save_image. rewrite Hc, Hct, Hps. now destruct ps.
Qed.

Lemma scan_parts_skip (env : Env) (pre rest : list Part) (path : string) :
  Forall (fun q => inline_data q = None) pre ->
  scan_parts env (pre ++ rest) path = scan_parts env rest path.
Proof.
  induction 1 as [|q pre Hq _ IH]; simpl; [reflexivity|]. now rewrite Hq.
Qed.

(** ** The pose loop *)

(** One turn of the loop, case by case. *)
Lemma pose_step_eq (env : Env) (sel : string) (mb : bytes) (dir : string)
    (n i : nat) (pose : string) (s : State) :
  pose_step env sel mb dir n i pose s =
  let q := pose_request sel mb pose in
  let hd := [EPrint (MsgPoseHeader (i + 1) n pose); ERequest q] in
  match generate_content env (calls s) q with
  | inl e => (Ret tt, next_call s, hd ++ [EPrint (MsgPoseFailed e)])
  | inr response =>
      match save_image env response (pose_filename dir i) (next_call s) with
      | (Ret _, s2, t) => (Ret tt, s2, hd ++ t ++ [ESleep 2])
      | (Raise e, s2, t) => (Ret tt, s2, hd ++ t ++ [EPrint (MsgPoseFailed e)])
      | (Exit, s2, t) => (Exit, s2, hd ++ t)
      end
  end.
Proof.
  unfold pose_step, bind, try_except, call_service, print, sleep, emit. simpl.
  destruct (generate_content env (calls s) (pose_request sel mb pose)) as [e|response]; simpl.
  - reflexivity.
  - destruct (save_image env response (pose_filename dir i) (next_call s)) as [[[b|e|] s2] t];
      simpl; rewrite ?app_nil_r; reflexivity.
Qed.

Lemma pose_step_shape (env : Env) (sel : string) (mb : bytes) (dir : string)
    (n i : nat) (pose : string) (s : State) :
  exists s' mid,
    pose_step env sel mb dir n i pose s
    = (Ret tt, s', EPrint (MsgPoseHeader (i + 1) n pose)
                   :: ERequest (pose_request sel mb pose) :: mid)
    /\ (mid = [ESleep 2]
        \/ (exists enc, mid = [EWrite (pose_filename dir i) enc;
                               EPrint (MsgSaved (pose_filename dir i)); ESleep 2])
        \/ (exists e, mid = [EPrint (MsgPoseFailed e)])).
Proof.
  rewrite pose_step_eq. cbv zeta.
  destruct (generate_content env (calls s) (pose_request sel mb pose)) as [e|response].
  - eexists _, _. split; [reflexivity|]. right. right. now exists e.
  - destruct (save_image_outcome env response (pose_filename dir i) (next_call s))
      as [e| |b enc].
    + eexists _, _. split; [reflexivity|]. right. right. now exists e.
    + eexists _, _. split; [reflexivity|]. now left.
    + eexists _, _. split; [reflexivity|]. right. left. now exists enc.
Qed.

Lemma pose_loop_cons (env : Env) (sel : string) (mb : bytes) (dir : string)
    (n i : nat) (pose : string) (rest : list string) (s s1 : State) (t1 : list event) :
  pose_step env sel mb dir n i pose s = (Ret tt, s1, t1) ->
  pose_loop env sel mb dir n i (pose :: rest) s
  = (result_of (pose_loop env sel mb dir n (S i) rest s1),
     state_of (pose_loop env sel mb dir n (S i) rest s1),
     t1 ++ trace_of (pose_loop env sel mb dir n (S i) rest s1)).
Proof. intros H. simpl. now rewrite (bind_ret _ _ _ _ _ _ H). Qed.

(** The loop never raises: every exception of a turn is caught in the turn. *)
Lemma pose_loop_returns (env : Env) (sel : string) (mb : bytes) (dir : string)
    (n i : nat) (poses : list string) (s : State) :
  result_of (pose_loop env sel mb dir n i poses s) = Ret tt.
Proof.
  revert i s. induction poses as [|pose rest IH]; intros i s; [reflexivity|].
  destruct (pose_step_shape env sel mb dir n i pose s) as (s1 & mid & Hstep & _).
  rewrite (pose_loop_cons _ _ _ _ _ _ _ _ _ _ _ Hstep). apply IH.
Qed.

Lemma pose_loop_shape (env : Env) (sel : string) (mb : bytes) (dir : string)
    (n i : nat) (poses : list string) (s : State) :
  pose_trace (trace_of (pose_loop env sel mb dir n i poses s)).
Proof.
  revert i s. induction poses as [|pose rest IH]; intros i s; [constructor|].
  destruct (pose_step_shape env sel mb dir n i pose s) as (s1 & mid & Hstep & Hmid).
  rewrite (pose_loop_cons _ _ _ _ _ _ _ _ _ _ _ Hstep). unfold trace_of at 1. simpl.
  destruct Hmid as [-> | [(enc & ->) | (e & ->)]]; simpl; constructor; apply IH.
Qed.

(** Every pose of the list is requested, in order, whatever the outcomes. *)
Lemma pose_loop_requests (env : Env) (sel : string) (mb : bytes) (dir : string)
    (n i : nat) (poses : list string) (s : State) :
  requests (trace_of (pose_loop env sel mb dir n i poses s))
  = map (pose_request sel mb) poses.
Proof.
  revert i s. induction poses as [|pose rest IH]; intros i s; [reflexivity|].
  destruct (pose_step_shape env sel mb dir n i pose s) as (s1 & mid & Hstep & Hmid).
  rewrite (pose_loop_cons _ _ _ _ _ _ _ _ _ _ _ Hstep). unfold trace_of at 1. simpl.
  destruct Hmid as [-> | [(enc & ->) | (e & ->)]]; simpl; f_equal; apply IH.
Qed.

Lemma pose_trace_paused (t : list event) :
  pose_trace t ->
  paused_between false t = true \/ exists e, In (EPrint (MsgPoseFailed e)) t.
Proof.
  induction 1 as [|i n pose q p enc rest _ IH|i n pose q rest _ IH|i n pose q e rest _ IH].
  - now left.
  - destruct IH as [IH | (e & IH)]; [left; exact IH|].
    right. exists e. simpl. tauto.
  - destruct IH as [IH | (e & IH)]; [left; exact IH|].
    right. exists e. simpl. tauto.
  - right. exists e. simpl. tauto.
Qed.

(** The question to the operator and what follows it. *)
Lemma pose_stage_eq (env : Env) (sel : string) (mb : bytes) (filename dir : string)
    (s : State) (line : string) :
  input_line env (inputs s) = Some line ->
  pose_stage env sel mb filename dir s =
  let head := [EPrint (MsgCheckImage (master_path dir)); EInput (AskPoses (clean_name filename))] in
  if poses_confirmed line then
    let loop := pose_loop env sel mb dir (length (POSES env)) 0 (POSES env) (next_input s) in
    (Ret tt, state_of loop,
     head ++ EPrint (MsgGenPoses (length (POSES env)) sel) :: trace_of loop
     ++ [EPrint (MsgAllPoses (clean_name filename))])
  else (Ret tt, next_input s, head ++ [EPrint MsgSkipPoses]).
Proof.
  intros Hline. unfold pose_stage, bind, input, print, emit. rewrite Hline. simpl.
  destruct (poses_confirmed line); simpl; [|reflexivity].
  pose proof (pose_loop_returns env sel mb dir (length (POSES env)) 0 (POSES env) (next_input s)) as Hr.
  destruct (pose_loop env sel mb dir (length (POSES env)) 0 (POSES env) (next_input s))
    as [[r s2] t2].
  unfold result_of in Hr. simpl in Hr. subst r. reflexivity.
Qed.

Lemma pose_trace_prints (t : list event) (m : msg) :
  pose_trace t -> In (EPrint m) t ->
  (exists i n pose, m = MsgPoseHeader i n pose) \/ (exists p, m = MsgSaved p)
  \/ (exists e, m = MsgPoseFailed e).
Proof.
  induction 1 as [|i n pose q p enc rest _ IH|i n pose q rest _ IH|i n pose q e rest _ IH];
    simpl; intros Hin.
  - destruct Hin.
  - destruct Hin as [H | [H | [H | [H | [H | H]]]]]; try discriminate H; auto.
    + injection H as <-. left. now exists i, n, pose.
    + injection H as <-. right. left. now exists p.
  - destruct Hin as [H | [H | [H | H]]]; try discriminate H; auto.
    injection H as <-. left. now exists i, n, pose.
  - destruct Hin as [H | [H | [H | H]]]; try discriminate H; auto.
    + injection H as <-. left. now exists i, n, pose.
    + injection H as <-. right. right. now exists e.
Qed.

Lemma requests_app (t1 t2 : list event) : requests (t1 ++ t2) = requests t1 ++ requests t2.
Proof. unfold requests. apply omap_app. Qed.

Lemma written_paths_app (t1 t2 : list event) :
  written_paths (t1 ++ t2) = written_paths t1 ++ written_paths t2.
Proof. unfold written_paths. apply omap_app. Qed.

Lemma made_dirs_app (t1 t2 : list event) : made_dirs (t1 ++ t2) = made_dirs t1 ++ made_dirs t2.
Proof. unfold made_dirs. apply omap_app. Qed.

(** ** What [save_image] does *)



(** The responses for which [save_image] does answer "not found": no
    candidates, a content without parts, or parts without inline data. *)
Lemma save_image_not_found (env : Env) (response : Response) (path : string) (s : State) :
  (candidates response = None \/ candidates response = Some []
   \/ exists c cs ct, candidates response = Some (c :: cs) /\ content c = Some ct
        /\ (parts ct = None
            \/ exists ps, parts ct = Some ps /\ Forall (fun q => inline_data q = None) ps)) ->
  save_image env response path s = (Ret None, s, []).
Proof.
  intros [H | [H | (c & cs & ct & Hc & Hct & Hps)]].
  - unfold save_image. now rewrite H.
  - unfold save_image. now rewrite H.
  - destruct Hps as [Hps | (ps & Hps & Hall)].
    + unfold save_image. now rewrite Hc, Hct, Hps.
    + rewrite (save_image_scan _ _ _ _ _ _ _ Hc Hct Hps).
      rewrite <- (app_nil_r ps). now rewrite (scan_parts_skip _ _ _ _ Hall).
Qed.

(** C3. A response whose first candidate has no content makes [save_image]
    raise [AttributeError] (it reads [.parts] of [None]); it does not give the
    "not found" answer [Ret None] that its docstring promises for a failure. *)
Theorem save_image_no_content_raises (env : Env) (path : string) (s : State) :
  save_image env blocked_response path s = (Raise AttributeError, s, [])
  /\ save_image env blocked_response path s <> (Ret None, s, []).
Proof. split; [reflexivity | discriminate]. Qed.

(** ** The pause and the log of the pose loop *)

(** C4, as stated, fails: when the service raises on a pose request, the
    handler prints the failure and the next request follows with no sleep in
    between.  Here both calls of a two-pose loop fail. *)
Lemma pose_loop_pause_counterexample :
  ~ (forall (env : Env) (sel : string) (mb : bytes) (dir : string) (n i : nat)
            (poses : list string) (s : State),
        paused_between false (trace_of (pose_loop env sel mb dir n i poses s)) = true).
Proof.
  intros H.
  specialize (H (demo_env [] always_fails []) "gemini-2.5-flash-image" [x02%byte]
                "run" 2 0 ["standing"; "sitting"] (start ∅)).
  vm_compute in H. discriminate H.
Qed.

(** C4, amended.  A turn of the pose loop sleeps two seconds, as its last
    action, exactly when the request and [save_image] both return (with or
    without an image); when either raises, the turn prints the failure and
    does not sleep.  The trace of the whole loop is a sequence of such turns,
    so a loop in which no failure is printed pauses between any two requests. *)
Theorem pose_loop_pause (env : Env) (sel : string) (mb : bytes) (dir : string)
    (n i : nat) (pose : string) (poses : list string) (s : State) :
  (let q := pose_request sel mb pose in
   let hd := [EPrint (MsgPoseHeader (i + 1) n pose); ERequest q] in
   let t := trace_of (pose_step env sel mb dir n i pose s) in
   match generate_content env (calls s) q with
   | inl e => t = hd ++ [EPrint (MsgPoseFailed e)]
   | inr response =>
       match save_image env response (pose_filename dir i) (next_call s) with
       | (Raise e, _, _) => t = hd ++ [EPrint (MsgPoseFailed e)]
       | (_, _, saved) => t = hd ++ saved ++ [ESleep 2] /\ requests saved = []
       end
   end)
  /\ pose_trace (trace_of (pose_loop env sel mb dir n i poses s))
  /\ (paused_between false (trace_of (pose_loop env sel mb dir n i poses s)) = true
      \/ exists e, In (EPrint (MsgPoseFailed e))
                      (trace_of (pose_loop env sel mb dir n i poses s))).
Proof.
  split; [|split].
  - cbv zeta. rewrite pose_step_eq. cbv zeta.
    destruct (generate_content env (calls s) (pose_request sel mb pose)) as [e|response];
      [reflexivity|].
    destruct (save_image_outcome env response (pose_filename dir i) (next_call s));
      simpl; auto.
  - apply pose_loop_shape.
  - apply pose_trace_paused, pose_loop_shape.
Qed.

(** C5.  The script run on one prompt with two poses, where the service
    answers the first pose request (call 1) with a response that holds no
    image: the second pose is still requested, but nothing is printed for the
    first one between its header and the header of the second. *)
Theorem pose_without_image_not_logged :
  let run := main (demo_env ["standing"; "sitting"] (no_image_at 1) ["1"; "y"])
                  (start demo_fs) in
  result_of run = Ret tt
  /\ map instruction (pose_requests (trace_of run))
     = [pose_prompt "standing"; pose_prompt "sitting"]
  /\ printed (trace_of run)
     = [MsgMenuTitle; MsgMenuFlash; MsgMenuPro;
        MsgUsingModel "gemini-2.5-flash-image"; MsgFound 1;
        MsgRule; MsgProcessing "winter.txt"; MsgPrompt "A red coat in snow.";
        MsgSavingTo "winter" 1700000000; MsgGenConcept "gemini-2.5-flash-image";
        MsgSaved "output folder/winter/run_1700000000/00_MASTER_CONCEPT.png";
        MsgCheckImage "output folder/winter/run_1700000000/00_MASTER_CONCEPT.png";
        MsgGenPoses 2 "gemini-2.5-flash-image";
        MsgPoseHeader 1 2 "standing";
        MsgPoseHeader 2 2 "sitting";
        MsgSaved "output folder/winter/run_1700000000/pose_2.png";
        MsgAllPoses "winter"; MsgComplete].
Proof. vm_compute. repeat split. Qed.

(** ** The two operator inputs *)

(** C6, as stated, fails: the line [" 2"] is neither ["1"] nor ["2"], and it
    resolves to the second model, because the script trims the line first. *)
Lemma resolve_model_counterexample :
  ~ (forall line : string,
        line <> "1" -> line <> "2" -> resolve_model line = resolve_model "1").
Proof.
  intros H. specialize (H " 2"). vm_compute in H.
  assert ("gemini-3-pro-image-preview" = "gemini-2.5-flash-image") as Habs
    by (apply H; discriminate).
  discriminate Habs.
Qed.

(** C6, amended.  The line is trimmed; the trimmed line ["1"] resolves to the
    first model, ["2"] to the second, and any other to the model of ["1"]. *)
Theorem resolve_model_trimmed (line : string) :
  resolve_model line =
  if String.eqb (strip line) "1" then "gemini-2.5-flash-image"
  else if String.eqb (strip line) "2" then "gemini-3-pro-image-preview"
  else resolve_model "1".
Proof.
  unfold resolve_model at 1. unfold SELECTED_MODEL, MODELS.
  destruct (String.eqb_spec (strip line) "1") as [-> | H1]; [reflexivity|].
  destruct (String.eqb_spec (strip line) "2") as [-> | H2]; [reflexivity|].
  rewrite lookup_insert_ne by congruence. rewrite lookup_insert_ne by congruence.
  rewrite lookup_empty. reflexivity.
Qed.

(** C7.  The poses are generated exactly when the trimmed, lower-cased line
    is ["y"], that is when the line is a [y] or [Y] between white space;
    ["yes"], ["n"] and the empty line skip them.  When they are skipped no
    request is made; otherwise every pose of the list is requested. *)
Theorem operator_gate (env : Env) (sel : string) (mb : bytes) (filename dir : string)
    (s : State) (line : string) :
  input_line env (inputs s) = Some line ->
  (poses_confirmed line = true <-> user_choice line = "y")
  /\ (poses_confirmed line = true <-> y_form line)
  /\ poses_confirmed "yes" = false /\ poses_confirmed "n" = false
  /\ poses_confirmed "" = false /\ poses_confirmed "Y " = true
  /\ result_of (pose_stage env sel mb filename dir s) = Ret tt
  /\ requests (trace_of (pose_stage env sel mb filename dir s))
     = (if poses_confirmed line then map (pose_request sel mb) (POSES env) else [])
  /\ (In (EPrint MsgSkipPoses) (trace_of (pose_stage env sel mb filename dir s))
      <-> poses_confirmed line = false).
Proof.
  intros Hline. split; [apply String.eqb_eq|]. split; [apply poses_confirmed_y_form|].
  do 4 (split; [reflexivity|]).
  rewrite (pose_stage_eq _ _ _ _ _ _ _ Hline). cbv zeta.
  destruct (poses_confirmed line).
  - split; [reflexivity|]. unfold trace_of at 1 3. simpl. split.
    + rewrite requests_app, pose_loop_requests. simpl. apply app_nil_r.
    + split; [|discriminate]. intros [H | [H | [H | H]]]; try discriminate H.
      apply in_app_or in H as [H | [H | []]]; [|discriminate H].
      exfalso.
      destruct (pose_trace_prints _ _ (pose_loop_shape env sel mb dir (length (POSES env)) 0
                                         (POSES env) (next_input s)) H)
        as [(i & n & p & Hm) | [(p & Hm) | (e & Hm)]]; discriminate Hm.
  - split; [reflexivity|]. split; [reflexivity|]. split; [reflexivity|].
    unfold trace_of. simpl. tauto.
Qed.

Lemma operator_gate_witness :
  let env := demo_env ["standing"] always_image ["  Y "] in
  (poses_confirmed "  Y " = true <-> user_choice "  Y " = "y")
  /\ (poses_confirmed "  Y " = true <-> y_form "  Y ")
  /\ poses_confirmed "yes" = false /\ poses_confirmed "n" = false
  /\ poses_confirmed "" = false /\ poses_confirmed "Y " = true
  /\ result_of (pose_stage env "m" [x02%byte] "winter.txt" "run" (start ∅)) = Ret tt
  /\ requests (trace_of (pose_stage env "m" [x02%byte] "winter.txt" "run" (start ∅)))
     = (if poses_confirmed "  Y " then map (pose_request "m" [x02%byte]) (POSES env) else [])
  /\ (In (EPrint MsgSkipPoses)
         (trace_of (pose_stage env "m" [x02%byte] "winter.txt" "run" (start ∅)))
      <-> poses_confirmed "  Y " = false).
Proof.
  apply (operator_gate (demo_env ["standing"] always_image ["  Y "]) "m" [x02%byte]
           "winter.txt" "run" (start ∅) "  Y ").
  reflexivity.
Defined.

(** ** Paths *)

Lemma eqb_cons_slash (x : ascii) (u : string) : u <> "" -> String.eqb (String x u) "/" = false.
Proof.
  intros Hu. destruct u as [|y u]; [congruence|]. simpl. now destruct (Ascii.eqb x "/").
Qed.

Lemma endswith_app_slash (a c : string) :
  endswith (a +:+ c) "/" = match c with EmptyString => endswith a "/" | _ => endswith c "/" end.
Proof.
  induction a as [|x a IH].
  - rewrite append_nil. now destruct c.
  - rewrite append_cons. destruct c as [|y c].
    + now rewrite append_nil_r.
    + cbn [endswith] in *. rewrite IH. rewrite eqb_cons_slash; [reflexivity|].
      destruct a; discriminate.
Qed.

Lemma no_slash_endswith (c : string) : contains_char "/" c = false -> endswith c "/" = false.
Proof.
  induction c as [|x c IH]; [reflexivity|]. simpl.
  intros H. apply orb_false_iff in H as [Hx Hc]. rewrite (IH Hc), Hx. simpl.
  now rewrite andb_false_r, orb_false_r || (destruct c; reflexivity).
Qed.

Lemma no_slash_startswith (c : string) : contains_char "/" c = false -> startswith c "/" = false.
Proof.
  destruct c as [|x c]; [reflexivity|]. simpl.
  intros H. apply orb_false_iff in H as [Hx _]. now rewrite Hx.
Qed.

Lemma join2_plain (d b : string) :
  plain_dir d -> startswith b "/" = false -> join2 d b = d +:+ "/" +:+ b.
Proof.
  intros [Hd He] Hb. unfold join2. rewrite Hb, He.
  destruct d; [congruence | reflexivity].
Qed.

Lemma plain_dir_app (d b : string) :
  d <> "" -> b <> "" -> endswith b "/" = false -> plain_dir (d +:+ "/" +:+ b).
Proof.
  intros Hd Hb He. split.
  - destruct d; [congruence | discriminate].
  - rewrite endswith_app_slash. change ("/" +:+ b) with (String "/" b).
    cbn [endswith]. rewrite He, eqb_cons_slash by exact Hb. reflexivity.
Qed.

Lemma substring_no_slash (n : nat) (p : string) :
  contains_char "/" p = false -> contains_char "/" (String.substring 0 n p) = false.
Proof.
  revert n. induction p as [|x p IH]; intros [|n] H; try reflexivity.
  simpl in *. apply orb_false_iff in H as [Hx Hp]. rewrite Hx. simpl. now apply IH.
Qed.

Lemma substring_empty (n : nat) (p : string) : String.substring n 0 p = "".
Proof.
  revert n. induction p as [|x p IH]; intros [|n]; try reflexivity. simpl. apply IH.
Qed.

(** The prompt name of a file name without separator has none either, and
    is not empty when the file name is not. *)
Lemma clean_name_plain (filename : string) :
  contains_char "/" filename = false -> filename <> "" ->
  contains_char "/" (clean_name filename) = false /\ clean_name filename <> "".
Proof.
  intros Hs Hne. unfold clean_name, splitext_root.
  destruct ((rfind "/" filename <? rfind "." filename)%Z
            && negb (all_dots (slice_str (Z.to_nat (rfind "/" filename + 1))
                                 (Z.to_nat (rfind "." filename)) filename))) eqn:Hc;
    [|now split].
  apply andb_true_iff in Hc as [_ Hdots]. unfold take_str. split.
  - now apply substring_no_slash.
  - unfold slice_str in Hdots.
    destruct (Z.to_nat (rfind "." filename)) as [|k].
    + rewrite Nat.sub_0_l, substring_empty in Hdots. discriminate Hdots.
    + destruct filename; [congruence | discriminate].
Qed.

Lemma pretty_N_char_not_slash (x : N) : Ascii.eqb (pretty_N_char x) "/" = false.
Proof. unfold pretty_N_char. repeat case_match; reflexivity. Qed.

Lemma pretty_N_go_endswith (x : N) (s : string) :
  endswith (pretty_N_go x s) "/" = endswith s "/".
Proof.
  revert s. induction (N.lt_wf_0 x) as [x _ IH]; intros s.
  assert (x = 0 \/ 0 < x)%N as [-> | Hx] by lia; [now rewrite pretty_N_go_0|].
  rewrite pretty_N_go_step by exact Hx. rewrite IH by (now apply N.div_lt).
  cbn [endswith]. destruct s as [|y s].
  - simpl. now rewrite pretty_N_char_not_slash.
  - rewrite eqb_cons_slash by discriminate. reflexivity.
Qed.

Lemma pretty_Z_endswith (z : Z) : endswith (pretty z) "/" = false.
Proof.
  assert (forall p : positive, endswith (pretty p) "/" = false) as Hpos.
  { intros p. unfold pretty, pretty_positive, pretty, pretty_N.
    case_decide; [reflexivity|]. apply pretty_N_go_endswith. }
  destruct z as [|p|p]; [reflexivity | apply Hpos |].
  unfold pretty, pretty_Z. rewrite endswith_app_slash.
  fold (pretty p). destruct (pretty p) eqn:Hp; [reflexivity|]. rewrite <- Hp. apply Hpos.
Qed.

(** The run directory is [output folder/{name}/run_{seconds}]. *)
Lemma current_output_dir_eq (filename : string) (run_id : Z) :
  contains_char "/" filename = false -> filename <> "" ->
  current_output_dir filename run_id
  = OUTPUT_BASE +:+ "/" +:+ clean_name filename +:+ "/" +:+ "run_" +:+ pretty run_id
  /\ plain_dir (current_output_dir filename run_id).
Proof.
  intros Hs Hne. destruct (clean_name_plain filename Hs Hne) as [Hcs Hcne].
  assert (current_output_dir filename run_id
          = (OUTPUT_BASE +:+ "/" +:+ clean_name filename) +:+ "/" +:+ "run_" +:+ pretty run_id)
    as Heq.
  { unfold current_output_dir, path_join. simpl.
    rewrite (join2_plain OUTPUT_BASE);
      [|split; [discriminate | reflexivity] | now apply no_slash_startswith].
    rewrite join2_plain; [reflexivity | | reflexivity].
    apply plain_dir_app; [discriminate | exact Hcne | now apply no_slash_endswith]. }
  split.
  - rewrite Heq. now rewrite !append_assoc.
  - rewrite Heq. apply plain_dir_app.
    + discriminate.
    + discriminate.
    + change ("run_" +:+ pretty run_id) with (String "r" (String "u" (String "n" (String "_" (pretty run_id))))).
      rewrite <- (append_nil (String "r" _)).
      change (String "r" (String "u" (String "n" (String "_" (pretty run_id)))))
        with ("run_" +:+ pretty run_id).
      rewrite append_nil, endswith_app_slash.
      destruct (pretty run_id) eqn:Hp; [reflexivity|]. rewrite <- Hp. apply pretty_Z_endswith.
Qed.

Lemma master_path_eq (dir : string) :
  plain_dir dir -> master_path dir = dir +:+ "/" +:+ "00_MASTER_CONCEPT.png".
Proof. intros Hd. unfold master_path, path_join. simpl. now apply join2_plain. Qed.

Lemma pose_filename_eq (dir : string) (i : nat) :
  plain_dir dir -> pose_filename dir i = dir +:+ "/" +:+ "pose_" +:+ pretty (i + 1) +:+ ".png".
Proof. intros Hd. unfold pose_filename, path_join. simpl. now apply join2_plain. Qed.

(** ** What a computation emits *)

Lemma emits_ret {A} (P : event -> Prop) (a : A) : emits P (ret a).
Proof. intros s. constructor. Qed.

Lemma emits_raise {A} (P : event -> Prop) (e : exn) : emits P (@raise A e).
Proof. intros s. constructor. Qed.

Lemma emits_emit (P : event -> Prop) (e : event) : P e -> emits P (emit e).
Proof. intros H s. repeat constructor. exact H. Qed.

Lemma emits_bind {A B} (P : event -> Prop) (m : M A) (f : A -> M B) :
  emits P m -> (forall a, emits P (f a)) -> emits P (bind m f).
Proof.
  intros Hm Hf s. specialize (Hm s). unfold bind.
  destruct (m s) as [[[a|e|] s1] t1]; unfold trace_of in *; simpl in *; try exact Hm.
  specialize (Hf a s1). destruct (f a s1) as [[r s2] t2]. simpl in *.
  apply Forall_app. now split.
Qed.

Lemma emits_try {A} (P : event -> Prop) (m : M A) (h : exn -> M A) :
  emits P m -> (forall e, emits P (h e)) -> emits P (try_except m h).
Proof.
  intros Hm Hh s. specialize (Hm s). unfold try_except.
  destruct (m s) as [[[a|e|] s1] t1]; unfold trace_of in *; simpl in *; try exact Hm.
  specialize (Hh e s1). destruct (h e s1) as [[r s2] t2]. simpl in *.
  apply Forall_app. now split.
Qed.

Lemma emits_save_image (P : event -> Prop) (env : Env) (response : Response) (path : string) :
  (forall enc, P (EWrite path enc)) -> P (EPrint (MsgSaved path)) ->
  emits P (save_image env response path).
Proof.
  intros Hw Hp s. destruct (save_image_outcome env response path s); repeat constructor; auto.
Qed.

Lemma emits_pose_loop (P : event -> Prop) (env : Env) (sel : string) (mb : bytes)
    (dir : string) (n i : nat) (poses : list string) :
  (forall e, pose_trace_event e -> P e) ->
  emits P (pose_loop env sel mb dir n i poses).
Proof.
  intros HP s.
  generalize (pose_loop_shape env sel mb dir n i poses s).
  induction 1; repeat constructor; try assumption; apply HP; exact I.
Qed.

Lemma made_dirs_none (t : list event) : Forall not_makedirs t -> made_dirs t = [].
Proof.
  induction 1 as [|e t He _ IH]; [reflexivity|].
  destruct e; simpl; try exact IH. destruct He.
Qed.


Lemma emits_call_service (P : event -> Prop) (env : Env) (q : Request) :
  P (ERequest q) -> emits P (call_service env q).
Proof. intros H s. repeat constructor. exact H. Qed.

Lemma emits_input (P : event -> Prop) (env : Env) (q : question) :
  P (EInput q) -> emits P (input env q).
Proof. intros H s. repeat constructor. exact H. Qed.

Lemma emits_read_text (P : event -> Prop) (env : Env) (p : string) :
  emits P (read_text env p).
Proof.
  intros s. unfold read_text, bind, read_bytes.
  destruct (read_fs (fs s) p) as [raw|e|]; try constructor.
  destruct (decode_text env raw); constructor.
Qed.

Ltac emits_auto :=
  repeat first
    [ apply emits_ret | apply emits_raise
    | apply emits_emit; exact I
    | apply emits_call_service; exact I
    | apply emits_input; exact I
    | apply emits_read_text
    | apply emits_save_image; [intros ?; exact I | exact I]
    | apply emits_pose_loop; intros [] ?; simpl; tauto
    | apply emits_bind; [|intros ?]
    | apply emits_try; [|intros ?] ].

Lemma master_step_no_makedirs (env : Env) (sel : string) (face_bytes : bytes)
    (prompt_text dir : string) :
  emits not_makedirs (master_step env sel face_bytes prompt_text dir).
Proof. unfold master_step, print. emits_auto. Qed.

Lemma pose_stage_no_makedirs (env : Env) (sel : string) (mb : bytes) (filename dir : string) :
  emits not_makedirs (pose_stage env sel mb filename dir).
Proof.
  unfold pose_stage, print. emits_auto.
  match goal with |- context [poses_confirmed ?l] => destruct (poses_confirmed l) end;
    simpl; emits_auto.
Qed.

Lemma generate_for_prompt_no_makedirs (env : Env) (sel : string) (face_bytes : bytes)
    (filename dir prompt_text : string) :
  emits not_makedirs (generate_for_prompt env sel face_bytes filename dir prompt_text).
Proof.
  unfold generate_for_prompt. apply emits_bind; [apply master_step_no_makedirs|].
  intros [mb|]; [|apply emits_ret].
  destruct (truthy mb); simpl; [apply pose_stage_no_makedirs|].
  apply emits_emit. exact I.
Qed.

Lemma prompt_body_no_makedirs (env : Env) (sel : string) (face_bytes : bytes)
    (filename dir : string) (run_id : Z) :
  emits not_makedirs (prompt_body env sel face_bytes filename dir run_id).
Proof.
  unfold prompt_body, print.
  do 6 (apply emits_bind; [emits_auto | intros ?]).
  apply generate_for_prompt_no_makedirs.
Qed.

(** ** [os.makedirs] *)

Lemma mkdir_chain_frame (chain : list string) (f : FS) (k : string) (v : node) :
  f !! k = Some v -> (mkdir_chain f chain).2 !! k = Some v.
Proof.
  revert f. induction chain as [|p rest IH]; intros f Hk; [exact Hk|]. simpl.
  destruct (f !! p) as [[|b]|] eqn:Hp; [now apply IH | exact Hk |].
  apply IH. rewrite lookup_insert_ne; [exact Hk | congruence].
Qed.

Lemma mkdir_chain_dirs (chain : list string) (f : FS) (p : string) :
  (mkdir_chain f chain).1 = Ret tt -> In p chain -> (mkdir_chain f chain).2 !! p = Some Dir.
Proof.
  revert f. induction chain as [|q rest IH]; intros f Hr Hin; [destruct Hin|].
  simpl in *. destruct (f !! q) as [[|b]|] eqn:Hq.
  - destruct Hin as [-> | Hin]; [now apply mkdir_chain_frame | now apply IH].
  - destruct rest; discriminate Hr.
  - destruct Hin as [-> | Hin]; [|now apply IH].
    apply mkdir_chain_frame, lookup_insert_eq.
Qed.

Lemma mkdir_chain_again (chain : list string) (f : FS) :
  (forall p, In p chain -> f !! p = Some Dir) -> mkdir_chain f chain = (Ret tt, f).
Proof.
  induction chain as [|q rest IH]; intros H; [reflexivity|]. simpl.
  rewrite (H q) by now left. apply IH. intros p Hp. apply H. now right.
Qed.

Lemma dir_chain_last (pre rest : string) : In (pre +:+ rest) (dir_chain pre rest).
Proof.
  revert pre. induction rest as [|c rest IH]; intros pre.
  - rewrite append_nil_r. now left.
  - simpl. destruct (Ascii.eqb_spec c "/") as [-> | _].
    + apply in_or_app. right.
      replace (pre +:+ String "/" rest) with ((pre +:+ "/") +:+ rest)
        by (now rewrite append_assoc). apply IH.
    + replace (pre +:+ String c rest) with ((pre +:+ String c "") +:+ rest)
        by (now rewrite append_assoc). apply IH.
Qed.

(** When [os.makedirs] returns, the directory exists, and asking for it
    again raises nothing and changes nothing. *)
Lemma makedirs_fs_creates (f : FS) (p : string) :
  (makedirs_fs f p).1 = Ret tt ->
  (makedirs_fs f p).2 !! p = Some Dir
  /\ makedirs_fs (makedirs_fs f p).2 p = (Ret tt, (makedirs_fs f p).2).
Proof.
  intros Hr. unfold makedirs_fs in *. split.
  - apply mkdir_chain_dirs; [exact Hr|]. apply (dir_chain_last "" p).
  - apply mkdir_chain_again. intros q Hq. now apply mkdir_chain_dirs.
Qed.



(** ** The master step and the poses *)

Lemma master_step_eq (env : Env) (sel : string) (face_bytes : bytes)
    (prompt_text dir : string) (s : State) :
  master_step env sel face_bytes prompt_text dir s =
  let q := master_request sel face_bytes prompt_text in
  match generate_content env (calls s) q with
  | inl e => (Ret None, next_call s, [ERequest q; EPrint (MsgConceptError e)])
  | inr response =>
      match save_image env response (master_path dir) (next_call s) with
      | (Ret b, s2, t) => (Ret (Some b), s2, ERequest q :: t)
      | (Raise e, s2, t) => (Ret None, s2, ERequest q :: t ++ [EPrint (MsgConceptError e)])
      | (Exit, s2, t) => (Exit, s2, ERequest q :: t)
      end
  end.
Proof.
  unfold master_step, try_except, bind, call_service, print, emit, ret. simpl.
  destruct (generate_content env (calls s) (master_request sel face_bytes prompt_text))
    as [e|response]; simpl; [reflexivity|].
  destruct (save_image env response (master_path dir) (next_call s)) as [[[b|e|] s2] t];
    simpl; rewrite ?app_nil_r; reflexivity.
Qed.

Lemma pose_requests_app (t1 t2 : list event) :
  pose_requests (t1 ++ t2) = pose_requests t1 ++ pose_requests t2.
Proof. unfold pose_requests. now rewrite requests_app, List.filter_app. Qed.

Lemma asked_app (t1 t2 : list event) : asked (t1 ++ t2) = asked t1 ++ asked t2.
Proof. unfold asked. apply omap_app. Qed.

(** The requests of the pose stage all carry the master image bytes. *)
Lemma pose_stage_requests (env : Env) (sel : string) (mb : bytes) (filename dir : string)
    (s : State) :
  Forall (fun q => image_data q = mb) (requests (trace_of (pose_stage env sel mb filename dir s))).
Proof.
  destruct (input_line env (inputs s)) as [line|] eqn:Hline.
  - rewrite (pose_stage_eq _ _ _ _ _ _ _ Hline). cbv zeta.
    destruct (poses_confirmed line); unfold trace_of at 1; simpl; [|constructor].
    rewrite requests_app, pose_loop_requests. simpl. rewrite app_nil_r.
    apply List.Forall_forall. intros q Hq. apply in_map_iff in Hq as (pose & <- & _). reflexivity.
  - unfold pose_stage, bind, input, print, emit. rewrite Hline. simpl. constructor.
Qed.

Lemma read_text_pure (env : Env) (p : string) (s : State) :
  exists r, read_text env p s = (r, s, []).
Proof.
  unfold read_text, bind, read_bytes, ret, raise.
  destruct (read_fs (fs s) p) as [raw|e|]; eauto.
  destruct (decode_text env raw); eauto.
Qed.

(** The requests of a loop body are those of its steps 1 to 3, made with the
    prompt text read from the file, if the body gets that far. *)
Lemma process_prompt_requests (env : Env) (sel : string) (face_bytes : bytes)
    (filename : string) (s : State) :
  let dir := current_output_dir filename (time_time env (ticks s)) in
  let run := process_prompt env sel face_bytes filename s in
  requests (trace_of run) = []
  \/ exists text s1,
       calls s1 = calls s
       /\ requests (trace_of run)
          = requests (trace_of (generate_for_prompt env sel face_bytes filename dir
                                  (strip text) s1)).
Proof.
  cbv zeta. unfold process_prompt.
  rewrite (bind_ret _ _ s (next_tick s) (time_time env (ticks s)) []) by reflexivity.
  unfold trace_of at 1 3. cbn [fst snd app].
  set (dir := current_output_dir filename (time_time env (ticks s))).
  unfold bind at 1 2, makedirs.
  destruct (makedirs_fs (fs (next_tick s)) dir) as [[[]|e|] f]; cbn [fst snd];
    [|now left|now left].
  set (s1 := set_fs f (next_tick s)).
  unfold prompt_body.
  destruct (read_text_pure env (path_join PROMPTS_FOLDER [filename]) s1) as (r & Hread).
  destruct r as [text|e|];
    [|rewrite (bind_raise _ _ _ _ _ _ Hread); now left
     |rewrite (bind_exit _ _ _ _ _ Hread); now left].
  rewrite (bind_ret _ _ _ _ _ _ Hread). right. exists text, s1. split; [reflexivity|].
  unfold bind, print, emit. cbn [fst snd app result_of state_of trace_of].
  destruct (generate_for_prompt env sel face_bytes filename dir (strip text) s1)
    as [[r2 s2] t2]. reflexivity.
Qed.

(** Steps 1 to 3 of a prompt, by what the master step yields. *)
Lemma generate_for_prompt_cases (env : Env) (sel : string) (face_bytes : bytes)
    (filename dir prompt_text : string) (s : State) :
  let run := generate_for_prompt env sel face_bytes filename dir prompt_text s in
  match master_bytes env sel face_bytes prompt_text dir s with
  | None =>
      result_of run = Ret tt
      /\ requests (trace_of run) = [master_request sel face_bytes prompt_text]
      /\ pose_requests (trace_of run) = []
      /\ asked (trace_of run) = []
  | Some d =>
      d <> []
      /\ (exists enc, In (EWrite (master_path dir) enc) (trace_of run))
      /\ Forall (fun q => image_data q = d) (pose_requests (trace_of run))
  end.
Proof.
  cbv zeta. unfold master_bytes.
  pose proof (master_step_eq env sel face_bytes prompt_text dir s) as Hm. cbv zeta in Hm.
  destruct (generate_content env (calls s) (master_request sel face_bytes prompt_text))
    as [e|response].
  { unfold generate_for_prompt. rewrite (bind_ret _ _ _ _ _ _ Hm). now repeat split. }
  destruct (save_image_outcome env response (master_path dir) (next_call s)) as [e| |b enc];
    unfold generate_for_prompt; rewrite (bind_ret _ _ _ _ _ _ Hm).
  - now repeat split.
  - now repeat split.
  - destruct b as [[|x d]|]; [now repeat split | | now repeat split].
    split; [discriminate|].
    set (s1 := set_fs _ _) in *. cbn [truthy negb default].
    pose proof (pose_stage_requests env sel (x :: d) filename dir s1) as Hreq.
    unfold trace_of at 1 3. cbn [fst snd]. split.
    + exists enc. right. now left.
    + change (ERequest ?q :: EWrite ?p ?c :: EPrint ?m :: ?t)
        with ([ERequest q; EWrite p c; EPrint m] ++ t).
      rewrite pose_requests_app. change (pose_requests [_; _; _]) with (@nil Request).
      rewrite app_nil_l. unfold pose_requests.
      apply List.Forall_forall. intros q Hq. apply List.filter_In in Hq as [Hq _].
      rewrite List.Forall_forall in Hreq. now apply Hreq.
Qed.

(** C1.  What the steps of a prompt do hinges on what the master step
    yields.  When it yields no image bytes (the request raises, [save_image]
    raises, finds nothing, or returns empty bytes) the prompt is abandoned:
    the steps return to the loop, the master request is the only request,
    and the operator is not asked.  When it yields bytes, the master file was
    written, and every pose request carries those bytes.  So a loop body
    that makes a pose request has a master step that yielded the bytes of
    that request. *)
Theorem pose_requires_master (env : Env) (sel : string) (face_bytes : bytes)
    (filename dir prompt_text : string) (s : State) :
  (let run := generate_for_prompt env sel face_bytes filename dir prompt_text s in
   match master_bytes env sel face_bytes prompt_text dir s with
   | None =>
       result_of run = Ret tt
       /\ requests (trace_of run) = [master_request sel face_bytes prompt_text]
       /\ pose_requests (trace_of run) = []
       /\ asked (trace_of run) = []
   | Some d =>
       d <> []
       /\ (exists enc, In (EWrite (master_path dir) enc) (trace_of run))
       /\ Forall (fun q => image_data q = d) (pose_requests (trace_of run))
   end)
  /\ (let body := process_prompt env sel face_bytes filename s in
      let run_dir := current_output_dir filename (time_time env (ticks s)) in
      pose_requests (trace_of body) = []
      \/ exists text s1 d,
           master_bytes env sel face_bytes (strip text) run_dir s1 = Some d
           /\ Forall (fun q => image_data q = d) (pose_requests (trace_of body))).
Proof.
  split; [apply generate_for_prompt_cases|]. cbv zeta.
  destruct (process_prompt_requests env sel face_bytes filename s)
    as [Hnone | (text & s1 & _ & Hreq)].
  - left. unfold pose_requests. now rewrite Hnone.
  - pose proof (generate_for_prompt_cases env sel face_bytes filename
                  (current_output_dir filename (time_time env (ticks s))) (strip text) s1)
      as Hcases. cbv zeta in Hcases.
    unfold pose_requests in *. rewrite Hreq.
    destruct (master_bytes env sel face_bytes (strip text)
                (current_output_dir filename (time_time env (ticks s))) s1) as [d|] eqn:Hmb.
    + right. exists text, s1, d. split; [exact Hmb|]. apply Hcases.
    + left. apply Hcases.
Qed.

(** ** A fully successful prompt *)

Lemma files_kept_refl (f : FS) : files_kept f f.
Proof. intros p b H. now exists b. Qed.

Lemma files_kept_trans (f g h : FS) : files_kept f g -> files_kept g h -> files_kept f h.
Proof. intros Hfg Hgh p b H. destruct (Hfg p b H) as (b' & H'). now apply (Hgh p b'). Qed.

Lemma files_kept_write (f : FS) (path : string) (enc : bytes) :
  files_kept f (<[path := File enc]> f).
Proof.
  intros p b H. destruct (decide (path = p)) as [-> | Hne].
  - exists enc. apply lookup_insert_eq.
  - exists b. now rewrite lookup_insert_ne.
Qed.

Lemma pose_step_success (env : Env) (sel : string) (mb : bytes) (dir : string)
    (n i : nat) (pose : string) (s : State) (response : Response) (d enc : bytes) :
  generate_content env (calls s) (pose_request sel mb pose) = inr response ->
  yields_image env response (pose_filename dir i) d enc ->
  pose_step env sel mb dir n i pose s
  = (Ret tt, set_fs (<[pose_filename dir i := File enc]> (fs s)) (next_call s),
     [EPrint (MsgPoseHeader (i + 1) n pose); ERequest (pose_request sel mb pose);
      EWrite (pose_filename dir i) enc; EPrint (MsgSaved (pose_filename dir i)); ESleep 2]).
Proof.
  intros Hcall Hsave. rewrite pose_step_eq. cbv zeta. rewrite Hcall, Hsave. reflexivity.
Qed.

(** A pose loop in which every call returns an image writes the pose files
    [i+1], [i+2], ... in order, and keeps the files that were there. *)
Lemma pose_loop_success (env : Env) (sel : string) (mb : bytes) (dir : string)
    (n : nat) (poses : list string) (i : nat) (s : State) :
  (forall k pose, poses !! k = Some pose ->
     exists response d enc,
       generate_content env (calls s + k) (pose_request sel mb pose) = inr response
       /\ yields_image env response (pose_filename dir (i + k)) d enc) ->
  let run := pose_loop env sel mb dir n i poses s in
  written_paths (trace_of run) = map (pose_filename dir) (seq i (length poses))
  /\ files_kept (fs s) (fs (state_of run))
  /\ (forall p, In p (map (pose_filename dir) (seq i (length poses))) ->
        exists b, fs (state_of run) !! p = Some (File b)).
Proof.
  revert i s. induction poses as [|pose rest IH]; intros i s Hall; cbv zeta.
  - split; [reflexivity|]. split; [apply files_kept_refl|]. intros p [].
  - destruct (Hall 0 pose eq_refl) as (response & d & enc & Hcall & Hsave).
    rewrite Nat.add_0_r in Hcall, Hsave.
    pose proof (pose_step_success env sel mb dir n i pose s response d enc Hcall Hsave) as Hstep.
    rewrite (pose_loop_cons _ _ _ _ _ _ _ _ _ _ _ Hstep).
    set (s1 := set_fs (<[pose_filename dir i := File enc]> (fs s)) (next_call s)) in *.
    destruct (IH (S i) s1) as (Hw & Hkept & Hfiles).
    { intros k pose' Hk. destruct (Hall (S k) pose' Hk) as (r' & d' & enc' & Hc' & Hs').
      exists r', d', enc'. split.
      - replace (calls s1 + k) with (calls s + S k) by (subst s1; simpl; lia). exact Hc'.
      - replace (S i + k) with (i + S k) by lia. exact Hs'. }
    unfold trace_of at 1. unfold state_of at 1 2. cbn [fst snd].
    split; [|split].
    + rewrite written_paths_app, Hw. reflexivity.
    + eapply files_kept_trans; [|exact Hkept]. apply files_kept_write.
    + intros p [<- | Hp]; [|now apply Hfiles].
      apply (Hkept (pose_filename dir i) enc). apply lookup_insert_eq.
Qed.

Lemma length_append (a b : string) :
  String.length (a +:+ b) = String.length a + String.length b.
Proof. induction a as [|x a IH]; [reflexivity|]. rewrite append_cons. simpl. now rewrite IH. Qed.

Lemma append_inj_r (a b c : string) : a +:+ c = b +:+ c -> a = b.
Proof.
  revert b. induction a as [|x a IH]; intros [|y b] H.
  - reflexivity.
  - apply (f_equal String.length) in H. rewrite append_nil, length_append in H.
    simpl in H. lia.
  - apply (f_equal String.length) in H. rewrite append_nil, length_append in H.
    simpl in H. lia.
  - rewrite !append_cons in H. injection H as -> H. f_equal. now apply IH.
Qed.

Lemma pose_filename_inj (dir : string) (i j : nat) :
  plain_dir dir -> pose_filename dir i = pose_filename dir j -> i = j.
Proof.
  intros Hd H. rewrite !pose_filename_eq in H by exact Hd.
  do 3 apply String.app_inj in H. apply append_inj_r in H.
  apply (inj pretty) in H. lia.
Qed.

Lemma master_path_not_pose (dir : string) (i : nat) :
  plain_dir dir -> master_path dir <> pose_filename dir i.
Proof.
  intros Hd H. rewrite master_path_eq, pose_filename_eq in H by exact Hd.
  do 2 apply String.app_inj in H.
  cbv beta iota delta [String.append] in H. discriminate H.
Qed.

Lemma NoDup_map_inj {A B} (f : A -> B) (l : list A) :
  (forall x y, f x = f y -> x = y) -> List.NoDup l -> List.NoDup (map f l).
Proof.
  intros Hf. induction 1 as [|x l Hx _ IH]; simpl; constructor; [|exact IH].
  intros Hin. apply in_map_iff in Hin as (y & Hy & Hin). apply Hf in Hy. now subst y.
Qed.

(** Steps 1 to 3 of a prompt for which the master call and every pose call
    return an image and the operator answers yes. *)
Lemma generate_for_prompt_success (env : Env) (sel : string) (face_bytes : bytes)
    (filename dir prompt_text : string) (s : State) (line : string) (d : bytes) :
  plain_dir dir ->
  (exists response enc,
     generate_content env (calls s) (master_request sel face_bytes prompt_text) = inr response
     /\ yields_image env response (master_path dir) d enc) ->
  d <> [] ->
  input_line env (inputs s) = Some line ->
  poses_confirmed line = true ->
  (forall k pose, POSES env !! k = Some pose ->
     exists response dk enc,
       generate_content env (calls s + 1 + k) (pose_request sel d pose) = inr response
       /\ yields_image env response (pose_filename dir k) dk enc) ->
  let run := generate_for_prompt env sel face_bytes filename dir prompt_text s in
  let N := length (POSES env) in
  result_of run = Ret tt
  /\ written_paths (trace_of run) = master_path dir :: map (pose_filename dir) (seq 0 N)
  /\ master_path dir = dir +:+ "/" +:+ "00_MASTER_CONCEPT.png"
  /\ (forall k, pose_filename dir k = dir +:+ "/" +:+ "pose_" +:+ pretty (k + 1) +:+ ".png")
  /\ List.NoDup (written_paths (trace_of run))
  /\ length (written_paths (trace_of run)) = 1 + N
  /\ (forall p, In p (written_paths (trace_of run)) ->
        exists b, fs (state_of run) !! p = Some (File b)).
Proof.
  intros Hd (response & enc & Hcall & Hsave) Hne Hline Hyes Hposes run N.
  pose proof (master_step_eq env sel face_bytes prompt_text dir s) as Hm.
  cbv zeta in Hm. rewrite Hcall, Hsave in Hm.
  set (s1 := set_fs (<[master_path dir := File enc]> (fs (next_call s))) (next_call s)) in *.
  assert (truthy (Some d) = true) as Htruthy by (destruct d; [congruence | reflexivity]).
  pose proof (pose_stage_eq env sel d filename dir s1 line Hline) as Hstage.
  cbv zeta in Hstage. rewrite Hyes in Hstage.
  destruct (pose_loop_success env sel d dir N (POSES env) 0 (next_input s1))
    as (Hw & Hkept & Hfiles).
  { intros k pose Hk. destruct (Hposes k pose Hk) as (r' & d' & enc' & Hc' & Hs').
    exists r', d', enc'. split; [|exact Hs'].
    replace (calls (next_input s1) + k) with (calls s + 1 + k) by (subst s1; simpl; lia).
    exact Hc'. }
  fold N in Hstage.
  assert (run = (Ret tt, state_of (pose_loop env sel d dir N 0 (POSES env) (next_input s1)),
                 [ERequest (master_request sel face_bytes prompt_text);
                  EWrite (master_path dir) enc; EPrint (MsgSaved (master_path dir))]
                 ++ [EPrint (MsgCheckImage (master_path dir));
                     EInput (AskPoses (clean_name filename))]
                 ++ EPrint (MsgGenPoses N sel)
                 :: trace_of (pose_loop env sel d dir N 0 (POSES env) (next_input s1))
                 ++ [EPrint (MsgAllPoses (clean_name filename))])) as Hrun.
  { subst run. unfold generate_for_prompt. rewrite (bind_ret _ _ _ _ _ _ Hm).
    rewrite Htruthy. change (default [] (Some d)) with d. cbn [negb].
    rewrite Hstage. reflexivity. }
  assert (written_paths (trace_of run) = master_path dir :: map (pose_filename dir) (seq 0 N))
    as Hpaths.
  { rewrite Hrun. unfold trace_of at 1. cbn [fst snd].
    rewrite !written_paths_app. change (written_paths (?e :: ?t)) with (written_paths ([e] ++ t)).
    rewrite !written_paths_app, Hw. simpl. now rewrite app_nil_r. }
  split; [now rewrite Hrun|]. split; [exact Hpaths|].
  split; [now apply master_path_eq|]. split; [intros k; now apply pose_filename_eq|].
  split; [|split].
  - rewrite Hpaths. constructor.
    + intros Hin. apply in_map_iff in Hin as (k & Hk & _).
      now apply (master_path_not_pose dir k Hd).
    + apply NoDup_map_inj; [intros x y; now apply pose_filename_inj | apply List.seq_NoDup].
  - rewrite Hpaths. simpl. now rewrite length_map, length_seq.
  - rewrite Hpaths, Hrun. unfold state_of at 1 2. cbn [fst snd]. intros p [<- | Hp].
    + apply (Hkept (master_path dir) enc). subst s1. simpl. apply lookup_insert_eq.
    + now apply Hfiles.
Qed.

(** The loop body when the run directory can be made and the prompt read:
    the directory, the announcement, then steps 1 to 3. *)
Lemma process_prompt_generates (env : Env) (sel : string) (face_bytes : bytes)
    (filename : string) (s : State) (f1 : FS) (raw : bytes) (text : string) :
  let run_id := time_time env (ticks s) in
  let dir := current_output_dir filename run_id in
  makedirs_fs (fs s) dir = (Ret tt, f1) ->
  read_fs f1 (path_join PROMPTS_FOLDER [filename]) = Ret raw ->
  decode_text env raw = Some text ->
  let gen := generate_for_prompt env sel face_bytes filename dir (strip text)
               (set_fs f1 (next_tick s)) in
  process_prompt env sel face_bytes filename s
  = (result_of gen, state_of gen,
     EMakedirs dir :: EPrint MsgRule :: EPrint (MsgProcessing filename)
     :: EPrint (MsgPrompt (take_str 60 (strip text)))
     :: EPrint (MsgSavingTo (clean_name filename) run_id)
     :: EPrint (MsgGenConcept sel) :: trace_of gen).
Proof.
  intros run_id dir Hmk Hread Hdec gen. unfold process_prompt.
  rewrite (bind_ret _ _ s (next_tick s) run_id []) by reflexivity. fold dir.
  assert (makedirs dir (next_tick s) = (Ret tt, set_fs f1 (next_tick s), [EMakedirs dir]))
    as Hmake.
  { unfold makedirs. change (fs (next_tick s)) with (fs s). now rewrite Hmk. }
  rewrite (bind_ret _ _ _ _ _ _ Hmake).
  assert (read_text env (path_join PROMPTS_FOLDER [filename]) (set_fs f1 (next_tick s))
          = (Ret text, set_fs f1 (next_tick s), [])) as Htext.
  { unfold read_text, bind, read_bytes. change (fs (set_fs f1 (next_tick s))) with f1.
    rewrite Hread, Hdec. reflexivity. }
  unfold prompt_body. rewrite (bind_ret _ _ _ _ _ _ Htext).
  unfold bind, print, emit. fold gen. destruct gen as [[r s2] t2]. reflexivity.
Qed.

(** C9.  A prompt for which the master call and every pose call return an
    image, and whose operator answers yes, writes the master file and then
    one file per pose: [00_MASTER_CONCEPT.png] and [pose_1.png] to
    [pose_N.png] in the run directory, in the order of the pose list, all
    different, and all of them files when the prompt is done. *)
Theorem successful_prompt_files (env : Env) (sel : string) (face_bytes : bytes)
    (filename : string) (s : State) (f1 : FS) (raw : bytes) (text line : string)
    (d : bytes) :
  let dir := current_output_dir filename (time_time env (ticks s)) in
  contains_char "/" filename = false ->
  filename <> "" ->
  makedirs_fs (fs s) dir = (Ret tt, f1) ->
  read_fs f1 (path_join PROMPTS_FOLDER [filename]) = Ret raw ->
  decode_text env raw = Some text ->
  (exists response enc,
     generate_content env (calls s) (master_request sel face_bytes (strip text)) = inr response
     /\ yields_image env response (master_path dir) d enc) ->
  d <> [] ->
  input_line env (inputs s) = Some line ->
  poses_confirmed line = true ->
  (forall k pose, POSES env !! k = Some pose ->
     exists response dk enc,
       generate_content env (calls s + 1 + k) (pose_request sel d pose) = inr response
       /\ yields_image env response (pose_filename dir k) dk enc) ->
  let run := process_prompt env sel face_bytes filename s in
  let N := length (POSES env) in
  result_of run = Ret tt
  /\ written_paths (trace_of run) = master_path dir :: map (pose_filename dir) (seq 0 N)
  /\ dir = OUTPUT_BASE +:+ "/" +:+ clean_name filename +:+ "/" +:+ "run_"
           +:+ pretty (time_time env (ticks s))
  /\ master_path dir = dir +:+ "/" +:+ "00_MASTER_CONCEPT.png"
  /\ (forall k, pose_filename dir k = dir +:+ "/" +:+ "pose_" +:+ pretty (k + 1) +:+ ".png")
  /\ List.NoDup (written_paths (trace_of run))
  /\ length (written_paths (trace_of run)) = 1 + N
  /\ (forall p, In p (written_paths (trace_of run)) ->
        exists b, fs (state_of run) !! p = Some (File b)).
Proof.
  intros dir Hs Hne Hmk Hread Hdec Hmaster Hd Hline Hyes Hposes run N.
  destruct (current_output_dir_eq filename (time_time env (ticks s)) Hs Hne) as [Hdir Hplain].
  fold dir in Hdir, Hplain.
  pose proof (generate_for_prompt_success env sel face_bytes filename dir (strip text)
                (set_fs f1 (next_tick s)) line d Hplain Hmaster Hd Hline Hyes Hposes) as Hgen.
  cbv zeta in Hgen. fold N in Hgen.
  destruct Hgen as (Hres & Hpaths & Hmp & Hpf & Hnodup & Hlen & Hfiles).
  subst run. rewrite (process_prompt_generates env sel face_bytes filename s f1 raw text
                        Hmk Hread Hdec).
  fold dir. unfold result_of at 1, trace_of at 1 3 5 7, state_of at 1. cbn [fst snd].
  change (written_paths (EMakedirs ?a :: EPrint ?b :: EPrint ?c :: EPrint ?e :: EPrint ?f
                         :: EPrint ?g :: ?t)) with (written_paths t).
  repeat split; assumption.
Qed.

Lemma successful_prompt_files_witness :
  let env := demo_env ["standing"; "sitting"] always_image ["y"] in
  let dir := current_output_dir "winter.txt" 1700000000 in
  let run := process_prompt env "gemini-2.5-flash-image" [x01%byte] "winter.txt"
               (start demo_fs) in
  let N := length (POSES env) in
  result_of run = Ret tt
  /\ written_paths (trace_of run) = master_path dir :: map (pose_filename dir) (seq 0 N)
  /\ dir = OUTPUT_BASE +:+ "/" +:+ clean_name "winter.txt" +:+ "/" +:+ "run_"
           +:+ pretty 1700000000%Z
  /\ master_path dir = dir +:+ "/" +:+ "00_MASTER_CONCEPT.png"
  /\ (forall k, pose_filename dir k = dir +:+ "/" +:+ "pose_" +:+ pretty (k + 1) +:+ ".png")
  /\ List.NoDup (written_paths (trace_of run))
  /\ length (written_paths (trace_of run)) = 1 + N
  /\ (forall p, In p (written_paths (trace_of run)) ->
        exists b, fs (state_of run) !! p = Some (File b)).
Proof.
  apply (successful_prompt_files (demo_env ["standing"; "sitting"] always_image ["y"])
           "gemini-2.5-flash-image" [x01%byte] "winter.txt" (start demo_fs)
           (makedirs_fs demo_fs (current_output_dir "winter.txt" 1700000000)).2
           (list_byte_of_string "A red coat in snow.") "A red coat in snow." "y"
           [x02%byte]).
  - reflexivity.
  - discriminate.
  - vm_compute. reflexivity.
  - vm_compute. reflexivity.
  - reflexivity.
  - eexists _, [x02%byte]. split; [reflexivity|]. intros s. reflexivity.
  - discriminate.
  - reflexivity.
  - reflexivity.
  - intros [|[|k]] pose Hk; [| |discriminate Hk];
      (eexists _, [x02%byte], [x02%byte]; split; [reflexivity|]; intros s; reflexivity).
Defined.

(** ** Startup *)

Lemma omap_none {A B} (f : A -> option B) (l : list A) :
  (forall x, In x l -> f x = None) -> omap f l = [].
Proof.
  induction l as [|x l IH]; intros H; [reflexivity|]. simpl.
  rewrite (H x) by now left. apply IH. intros y Hy. apply H. now right.
Qed.

Lemma in_omap {A B} (f : A -> option B) (l : list A) (x : A) (y : B) :
  In x l -> f x = Some y -> In y (omap f l).
Proof.
  induction l as [|z l IH]; intros Hin Hf; [destruct Hin|].
  destruct Hin as [-> | Hin]; simpl.
  - rewrite Hf. now left.
  - destruct (f z); [right|]; now apply IH.
Qed.

Lemma in_keys (f : FS) (k : string) :
  In k (map fst (map_to_list f)) <-> is_Some (f !! k).
Proof.
  rewrite in_map_iff. split.
  - intros ([k' v] & <- & Hin). apply list_elem_of_In, elem_of_map_to_list in Hin.
    now exists v.
  - intros (v & Hv). exists (k, v). split; [reflexivity|].
    now apply list_elem_of_In, elem_of_map_to_list.
Qed.

Lemma startswith_append (a b : string) : startswith (a +:+ b) a = true.
Proof.
  induction a as [|x a IH]; [now destruct b|]. rewrite append_cons. simpl.
  now rewrite Ascii.eqb_refl.
Qed.

Lemma substring_full (b : string) : String.substring 0 (String.length b) b = b.
Proof. induction b as [|x b IH]; [reflexivity|]. simpl. now rewrite IH. Qed.

Lemma substring_append (a b : string) :
  String.substring (String.length a) (String.length (a +:+ b) - String.length a) (a +:+ b) = b.
Proof.
  rewrite length_append. replace (String.length a + String.length b - String.length a)
    with (String.length b) by lia.
  induction a as [|x a IH]; [apply substring_full|]. rewrite append_cons. simpl. exact IH.
Qed.

Lemma child_name_entry (d name : string) :
  name <> "" -> contains_char "/" name = false ->
  child_name d (d +:+ "/" +:+ name) = Some name.
Proof.
  intros Hne Hs. unfold child_name. rewrite <- append_assoc.
  rewrite startswith_append, substring_append, Hs.
  destruct name; [congruence | reflexivity].
Qed.

(** The names [os.listdir] gives are not empty and hold no separator. *)
Lemma listdir_names_plain (f : FS) (d : string) (names : list string) (n : string) :
  listdir_fs f d = Ret names -> In n names -> n <> "" /\ contains_char "/" n = false.
Proof.
  unfold listdir_fs. destruct (f !! d) as [[|b]|]; try discriminate.
  intros [= <-] Hin. apply list_elem_of_In, list_elem_of_omap in Hin as (k & _ & Hk).
  unfold child_name in Hk. destruct (startswith k (d +:+ "/")); [|discriminate Hk].
  destruct (String.eqb_spec (String.substring (String.length (d +:+ "/"))
              (String.length k - String.length (d +:+ "/")) k) "") as [He | He];
    [discriminate Hk|].
  cbn [orb] in Hk.
  destruct (contains_char "/" _) eqn:Hc; [discriminate Hk|].
  injection Hk as <-. now split.
Qed.

(** The listing of a directory that was just created in a file system with
    nothing below its path is empty. *)
Lemma listdir_fresh (f : FS) (d : string) :
  f !! d = Some Dir ->
  (forall k, startswith k (d +:+ "/") = true -> f !! k = None) ->
  listdir_fs f d = Ret [].
Proof.
  intros Hd Hnone. unfold listdir_fs. rewrite Hd. f_equal. apply omap_none.
  intros k Hk. apply in_keys in Hk as (v & Hv). unfold child_name.
  destruct (startswith k (d +:+ "/")) eqn:Hpre; [|reflexivity].
  rewrite (Hnone k Hpre) in Hv. discriminate Hv.
Qed.

Lemma dir_chain_flat (pre rest : string) :
  contains_char "/" rest = false -> dir_chain pre rest = [pre +:+ rest].
Proof.
  revert pre. induction rest as [|c rest IH]; intros pre H.
  - now rewrite append_nil_r.
  - simpl in *. apply orb_false_iff in H as [Hc Hrest]. rewrite Hc.
    rewrite (IH _ Hrest). now rewrite append_assoc.
Qed.

(** [os.makedirs] of a single-component path. *)
Lemma makedirs_flat (p : string) (s : State) :
  contains_char "/" p = false ->
  makedirs p s =
  match fs s !! p with
  | Some (File _) => (Raise FileExistsError, set_fs (fs s) s, [EMakedirs p])
  | Some Dir => (Ret tt, set_fs (fs s) s, [EMakedirs p])
  | None => (Ret tt, set_fs (<[p := Dir]> (fs s)) s, [EMakedirs p])
  end.
Proof.
  intros H. unfold makedirs, makedirs_fs. rewrite (dir_chain_flat "" p H), append_nil.
  simpl. now destruct (fs s !! p) as [[|b]|].
Qed.

(** With an empty prompts directory the script stops at the face check or
    at the empty prompt set; the listing itself does not fail. *)
Lemma interactive_loop_empty (env : Env) (s : State) :
  fs s !! PROMPTS_FOLDER = Some Dir ->
  (forall k, startswith k (PROMPTS_FOLDER +:+ "/") = true -> fs s !! k = None) ->
  interactive_loop env s =
  match fs s !! REF_FACE_PATH with
  | None => (Exit, s, [EPrint MsgNoFace])
  | Some Dir => (Raise IsADirectoryError, s, [])
  | Some (File _) => (Exit, s, [EPrint MsgNoTxt])
  end.
Proof.
  intros Hdir Hbelow.
  unfold interactive_loop, bind, path_exists, read_bytes, read_fs, listdir.
  cbv beta iota.
  destruct (fs s !! REF_FACE_PATH) as [[|b]|] eqn:Hface; cbv beta iota delta [negb];
    rewrite ?Hface; try reflexivity.
  cbv beta iota. rewrite (listdir_fresh _ _ Hdir Hbelow). reflexivity.
Qed.



(** * Further properties of the script *)

(** ** [save_image]: effects and failures *)

Lemma scan_parts_effects (env : Env) (ps : list Part) (path : string) (s : State) :
  scan_parts env ps path s = (Ret None, s, [])
  \/ (exists e, (e = UnidentifiedImageError \/ e = ImageSaveError)
                /\ scan_parts env ps path s = (Raise e, s, []))
  \/ (exists b enc,
        scan_parts env ps path s
        = (Ret b, set_fs (<[path := File enc]> (fs s)) s,
           [EWrite path enc; EPrint (MsgSaved path)])).
Proof.
  induction ps as [|part rest IH]; simpl; [now left|].
  destruct (inline_data part) as [blob|]; [|exact IH].
  unfold bind, open_image, save_to, print, emit, ret.
  destruct (Image_open env (default [] (data blob))) as [img|].
  - destruct (Image_save env img path) as [enc|]; simpl.
    + right. right. now exists (data blob), enc.
    + right. left. exists ImageSaveError. split; [now right | reflexivity].
  - right. left. exists UnidentifiedImageError. split; [now left | reflexivity].
Qed.


Lemma scan_parts_none (env : Env) (ps : list Part) (path : string) (s : State) :
  scan_parts env ps path s = (Ret None, s, []) ->
  Forall (fun q => inline_data q = None) ps.
Proof.
  induction ps as [|part rest IH]; simpl; intros H; [constructor|].
  destruct (inline_data part) as [blob|] eqn:Hpart; [|constructor; auto].
  exfalso. revert H. unfold bind, open_image, save_to, print, emit, ret.
  destruct (Image_open env (default [] (data blob))) as [img|]; [|discriminate].
  destruct (Image_save env img path) as [enc|]; simpl; discriminate.
Qed.

(** X2.  [save_image] gives its "not found" answer, [None] with nothing
    written and nothing printed, exactly for a response without candidates
    and for one whose first candidate has a content without parts or with
    parts of which none carries inline data. *)
Theorem save_image_not_found_iff (env : Env) (response : Response) (path : string)
    (s : State) :
  save_image env response path s = (Ret None, s, [])
  <-> (candidates response = None \/ candidates response = Some []
       \/ exists c cs ct,
            candidates response = Some (c :: cs) /\ content c = Some ct
            /\ (parts ct = None
                \/ exists ps, parts ct = Some ps
                              /\ Forall (fun q => inline_data q = None) ps)).
Proof.
  split; [|apply save_image_not_found].
  unfold save_image. destruct (candidates response) as [[|c cs]|]; auto.
  destruct (content c) as [ct|] eqn:Hct; [|discriminate].
  intros H. right. right. exists c, cs, ct. split; [reflexivity|]. split; [exact Hct|].
  destruct (parts ct) as [[|p ps]|]; auto.
  - right. exists []. split; [reflexivity | constructor].
  - right. exists (p :: ps). split; [reflexivity|]. now apply scan_parts_none in H.
Qed.



(** ** The pose loop: every pose, by position *)

(** X4.  The pose loop always returns, and it requests every pose of the
    list once, in the order of the list, each time with the master image
    bytes as PNG and the selected model, whatever the earlier outcomes. *)
Theorem pose_loop_attempts_all (env : Env) (sel : string) (mb : bytes) (dir : string)
    (n i : nat) (poses : list string) (s : State) :
  let run := pose_loop env sel mb dir n i poses s in
  result_of run = Ret tt
  /\ requests (trace_of run) = map (pose_request sel mb) poses
  /\ map instruction (requests (trace_of run)) = map pose_prompt poses
  /\ Forall (fun q => model q = sel /\ image_data q = mb /\ image_mime q = "image/png")
            (requests (trace_of run)).
Proof.
  cbv zeta. split; [apply pose_loop_returns|]. rewrite pose_loop_requests.
  split; [reflexivity|]. split; [now rewrite map_map|].
  apply List.Forall_forall. intros q Hq. apply in_map_iff in Hq as (pose & <- & _).
  now repeat split.
Qed.

Lemma pose_step_written (env : Env) (sel : string) (mb : bytes) (dir : string)
    (n i : nat) (pose : string) (s : State) :
  exists s' t,
    pose_step env sel mb dir n i pose s = (Ret tt, s', t)
    /\ (written_paths t = [] \/ written_paths t = [pose_filename dir i]).
Proof.
  destruct (pose_step_shape env sel mb dir n i pose s) as (s' & mid & Hstep & Hmid).
  eexists _, _. split; [exact Hstep|].
  destruct Hmid as [-> | [(enc & ->) | (e & ->)]]; simpl; auto.
Qed.


(** ** One prompt: what can end it, what it requests and asks *)

Lemma pose_stage_eof (env : Env) (sel : string) (mb : bytes) (filename dir : string)
    (s : State) :
  input_line env (inputs s) = None ->
  pose_stage env sel mb filename dir s
  = (Raise EOFError, next_input s,
     [EPrint (MsgCheckImage (master_path dir)); EInput (AskPoses (clean_name filename))]).
Proof.
  intros Hline. unfold pose_stage, bind, input, print, emit. now rewrite Hline.
Qed.

Lemma pose_loop_asked (env : Env) (sel : string) (mb : bytes) (dir : string)
    (n i : nat) (poses : list string) (s : State) :
  asked (trace_of (pose_loop env sel mb dir n i poses s)) = [].
Proof.
  generalize (pose_loop_shape env sel mb dir n i poses s). induction 1; simpl; auto.
Qed.

(** The pose stage as a function of the line the operator types. *)
Lemma pose_stage_summary (env : Env) (sel : string) (mb : bytes) (filename dir : string)
    (s : State) :
  let run := pose_stage env sel mb filename dir s in
  asked (trace_of run) = [AskPoses (clean_name filename)]
  /\ match input_line env (inputs s) with
     | Some line =>
         result_of run = Ret tt
         /\ requests (trace_of run)
            = (if poses_confirmed line then map (pose_request sel mb) (POSES env) else [])
     | None => result_of run = Raise EOFError /\ requests (trace_of run) = []
     end.
Proof.
  cbv zeta. destruct (input_line env (inputs s)) as [line|] eqn:Hline.
  - rewrite (pose_stage_eq _ _ _ _ _ _ _ Hline). cbv zeta.
    destruct (poses_confirmed line); [|now repeat split].
    pose proof (pose_loop_requests env sel mb dir (length (POSES env)) 0 (POSES env)
                  (next_input s)) as Hreq.
    pose proof (pose_loop_asked env sel mb dir (length (POSES env)) 0 (POSES env)
                  (next_input s)) as Hask.
    destruct (pose_loop env sel mb dir (length (POSES env)) 0 (POSES env) (next_input s))
      as [[r s2] t2].
    unfold result_of, trace_of, state_of in *. cbn [fst snd] in *.
    rewrite !asked_app, !requests_app.
    change (requests (EPrint ?m :: ?t)) with (requests t).
    change (asked (EPrint ?m :: ?t)) with (asked t).
    rewrite !asked_app, !requests_app, Hreq, Hask. simpl. now rewrite app_nil_r.
  - rewrite (pose_stage_eof _ _ _ _ _ _ Hline). now repeat split.
Qed.

(** Steps 1 to 3 of a prompt as a function of what the environment answers. *)
Lemma generate_for_prompt_run (env : Env) (sel : string) (face_bytes : bytes)
    (filename dir prompt_text : string) (s : State) :
  let run := generate_for_prompt env sel face_bytes filename dir prompt_text s in
  let mreq := master_request sel face_bytes prompt_text in
  match master_bytes env sel face_bytes prompt_text dir s with
  | None => result_of run = Ret tt /\ requests (trace_of run) = [mreq]
            /\ asked (trace_of run) = []
  | Some d =>
      asked (trace_of run) = [AskPoses (clean_name filename)]
      /\ match input_line env (inputs s) with
         | Some line =>
             result_of run = Ret tt
             /\ requests (trace_of run)
                = mreq :: (if poses_confirmed line
                           then map (pose_request sel d) (POSES env) else [])
         | None => result_of run = Raise EOFError /\ requests (trace_of run) = [mreq]
         end
  end.
Proof.
  cbv zeta. unfold master_bytes.
  pose proof (master_step_eq env sel face_bytes prompt_text dir s) as Hm. cbv zeta in Hm.
  destruct (generate_content env (calls s) (master_request sel face_bytes prompt_text))
    as [e|response].
  { unfold generate_for_prompt. rewrite (bind_ret _ _ _ _ _ _ Hm). now repeat split. }
  destruct (save_image_outcome env response (master_path dir) (next_call s)) as [e| |b enc];
    unfold generate_for_prompt; rewrite (bind_ret _ _ _ _ _ _ Hm).
  - now repeat split.
  - now repeat split.
  - destruct b as [[|x d]|]; [now repeat split | | now repeat split].
    set (s1 := set_fs _ _) in *. cbn [truthy negb].
    change (default [] (Some (x :: d))) with (x :: d).
    pose proof (pose_stage_summary env sel (x :: d) filename dir s1) as Hps.
    cbv zeta in Hps. change (inputs s1) with (inputs s) in Hps.
    destruct (pose_stage env sel (x :: d) filename dir s1) as [[r s2] t2].
    unfold result_of, trace_of, state_of in *. cbn [fst snd] in *.
    destruct Hps as [Hask Hps]. rewrite asked_app, requests_app, Hask. simpl.
    split; [reflexivity|].
    destruct (input_line env (inputs s)) as [line|]; destruct Hps as [-> ->];
      now split.
Qed.

Lemma prompt_steps_result (env : Env) (sel : string) (face_bytes : bytes)
    (filename dir prompt_text : string) (s : State) :
  result_of (generate_for_prompt env sel face_bytes filename dir prompt_text s) = Ret tt
  \/ result_of (generate_for_prompt env sel face_bytes filename dir prompt_text s)
     = Raise EOFError.
Proof.
  pose proof (generate_for_prompt_run env sel face_bytes filename dir prompt_text s) as H.
  cbv zeta in H.
  destruct (master_bytes env sel face_bytes prompt_text dir s) as [d|]; [|left; apply H].
  destruct H as [_ H]. destruct (input_line env (inputs s)) as [line|];
    [left | right]; apply H.
Qed.

(** X6.  No failure of the service or of the image library ends the steps of
    a prompt: they return to the loop, or raise [EOFError] when the operator's
    input has ended at the question about the poses, which is asked only after
    a master image was saved.  They never call [exit]. *)
Theorem prompt_steps_contain_failures (env : Env) (sel : string) (face_bytes : bytes)
    (filename dir prompt_text : string) (s : State) :
  let run := generate_for_prompt env sel face_bytes filename dir prompt_text s in
  result_of run = Ret tt
  \/ (result_of run = Raise EOFError
      /\ input_line env (inputs s) = None
      /\ exists d, master_bytes env sel face_bytes prompt_text dir s = Some d).
Proof.
  cbv zeta.
  pose proof (generate_for_prompt_run env sel face_bytes filename dir prompt_text s) as H.
  cbv zeta in H.
  destruct (master_bytes env sel face_bytes prompt_text dir s) as [d|]; [|now left].
  destruct H as [_ H]. destruct (input_line env (inputs s)) as [line|]; [now left|].
  right. split; [apply H|]. split; [reflexivity|]. now exists d.
Qed.

(** X7.  A prompt makes the master request first and then either no other
    request or one request per pose, each with the bytes of the master image;
    it asks the operator at most one question, and only after the master step
    yielded bytes. *)
Theorem prompt_requests_and_questions (env : Env) (sel : string) (face_bytes : bytes)
    (filename dir prompt_text : string) (s : State) :
  let run := generate_for_prompt env sel face_bytes filename dir prompt_text s in
  let mreq := master_request sel face_bytes prompt_text in
  match master_bytes env sel face_bytes prompt_text dir s with
  | None => requests (trace_of run) = [mreq] /\ asked (trace_of run) = []
  | Some d =>
      asked (trace_of run) = [AskPoses (clean_name filename)]
      /\ (requests (trace_of run) = [mreq]
          \/ requests (trace_of run) = mreq :: map (pose_request sel d) (POSES env))
      /\ (requests (trace_of run) = mreq :: map (pose_request sel d) (POSES env)
          <-> (POSES env = []
               \/ exists line, input_line env (inputs s) = Some line
                               /\ poses_confirmed line = true))
  end.
Proof.
  cbv zeta.
  pose proof (generate_for_prompt_run env sel face_bytes filename dir prompt_text s) as H.
  cbv zeta in H.
  destruct (master_bytes env sel face_bytes prompt_text dir s) as [d|]; [|tauto].
  destruct H as [Hask H]. split; [exact Hask|].
  destruct (input_line env (inputs s)) as [line|].
  - destruct H as [_ ->]. destruct (poses_confirmed line) eqn:Hyes.
    + split; [now right|]. split; [intros _; right; now exists line | reflexivity].
    + split; [now left|]. split.
      * intros Heq. left. injection Heq as Heq. symmetry in Heq.
        now apply map_eq_nil in Heq.
      * intros [-> | (l & [= <-] & Hl)]; [reflexivity | congruence].
  - destruct H as [_ ->]. split; [now left|]. split.
    + intros Heq. left. injection Heq as Heq. symmetry in Heq. now apply map_eq_nil in Heq.
    + intros [-> | (l & Hl & _)]; [reflexivity | discriminate Hl].
Qed.

(** ** The session: the model, the clock and a prompt that cannot be read *)

Lemma resolve_model_cases (line : string) :
  resolve_model line = "gemini-2.5-flash-image"
  \/ resolve_model line = "gemini-3-pro-image-preview".
Proof.
  unfold resolve_model, SELECTED_MODEL, MODELS.
  destruct (String.eqb_spec (strip line) "1") as [-> | H1]; [now left|].
  destruct (String.eqb_spec (strip line) "2") as [-> | H2]; [now right|].
  rewrite !lookup_insert_ne by congruence. rewrite lookup_empty. now left.
Qed.

Lemma generate_for_prompt_models (env : Env) (sel : string) (face_bytes : bytes)
    (filename dir prompt_text : string) (s : State) :
  Forall (fun q => model q = sel)
    (requests (trace_of (generate_for_prompt env sel face_bytes filename dir prompt_text s))).
Proof.
  pose proof (generate_for_prompt_run env sel face_bytes filename dir prompt_text s) as H.
  cbv zeta in H.
  assert (forall d l, Forall (fun q => model q = sel)
                        (master_request sel face_bytes prompt_text
                         :: (if l : bool then map (pose_request sel d) (POSES env) else [])))
    as Hall.
  { intros d l. constructor; [reflexivity|]. destruct l; [|constructor].
    apply List.Forall_forall. intros q Hq. now apply in_map_iff in Hq as (pose & <- & _). }
  destruct (master_bytes env sel face_bytes prompt_text dir s) as [d|].
  - destruct H as [_ H]. destruct (input_line env (inputs s)) as [line|].
    + destruct H as [_ ->]. apply Hall.
    + destruct H as [_ ->]. apply (Hall d false).
  - destruct H as (_ & -> & _). apply (Hall [] false).
Qed.

Lemma process_prompt_models (env : Env) (sel : string) (face_bytes : bytes)
    (filename : string) (s : State) :
  Forall (fun q => model q = sel)
    (requests (trace_of (process_prompt env sel face_bytes filename s))).
Proof.
  destruct (process_prompt_requests env sel face_bytes filename s)
    as [-> | (text & s1 & _ & ->)]; [constructor | apply generate_for_prompt_models].
Qed.

Lemma for_each_requests {A} (P : Request -> Prop) (body : A -> M unit) (l : list A)
    (s : State) :
  (forall x s', Forall P (requests (trace_of (body x s')))) ->
  Forall P (requests (trace_of (for_each l body s))).
Proof.
  intros Hbody. revert s. induction l as [|x rest IH]; intros s; [constructor|].
  simpl. unfold bind. specialize (Hbody x s).
  destruct (body x s) as [[[[]|e|] s1] t1]; unfold trace_of in *; cbn [fst snd] in *;
    try exact Hbody.
  specialize (IH s1). destruct (for_each rest body s1) as [[r s2] t2]. cbn [fst snd] in *.
  rewrite requests_app. apply Forall_app. now split.
Qed.

(** The session after the line for the model was typed. *)
Lemma session_eq (env : Env) (face_bytes : bytes) (files : list string) (s : State)
    (line : string) :
  input_line env (inputs s) = Some line ->
  session env face_bytes files s =
  let loop := for_each files (process_prompt env (resolve_model line) face_bytes)
                (next_input s) in
  (result_of loop, state_of loop,
   [EPrint MsgMenuTitle; EPrint MsgMenuFlash; EPrint MsgMenuPro; EInput AskModel;
    EPrint (MsgUsingModel (resolve_model line)); EPrint (MsgFound (length files))]
   ++ trace_of loop
   ++ match result_of loop with Ret _ => [EPrint MsgComplete] | _ => [] end).
Proof.
  intros Hline. unfold session, bind, input, print, emit. rewrite Hline. simpl.
  destruct (for_each files (process_prompt env (resolve_model line) face_bytes)
              (next_input s)) as [[[[]|e|] s2] t2]; simpl; rewrite ?app_nil_r; reflexivity.
Qed.

Lemma session_eof (env : Env) (face_bytes : bytes) (files : list string) (s : State) :
  input_line env (inputs s) = None ->
  session env face_bytes files s
  = (Raise EOFError, next_input s,
     [EPrint MsgMenuTitle; EPrint MsgMenuFlash; EPrint MsgMenuPro; EInput AskModel]).
Proof.
  intros Hline. unfold session, bind, input, print, emit. now rewrite Hline.
Qed.

(** X8.  The model is chosen once: every request of the session, for the
    master images and for the poses of every prompt, names the model resolved
    from the line typed at the start, which is one of the two identifiers of
    [MODELS].  When the input has ended at that question the session raises
    [EOFError] and requests nothing. *)
Theorem session_uses_selected_model (env : Env) (face_bytes : bytes)
    (files : list string) (s : State) :
  let run := session env face_bytes files s in
  match input_line env (inputs s) with
  | Some line =>
      Forall (fun q => model q = resolve_model line) (requests (trace_of run))
      /\ (resolve_model line = "gemini-2.5-flash-image"
          \/ resolve_model line = "gemini-3-pro-image-preview")
  | None => result_of run = Raise EOFError /\ requests (trace_of run) = []
  end.
Proof.
  cbv zeta. destruct (input_line env (inputs s)) as [line|] eqn:Hline.
  - split; [|apply resolve_model_cases].
    rewrite (session_eq _ _ _ _ _ Hline). cbv zeta.
    pose proof (for_each_requests (fun q => model q = resolve_model line)
                  (process_prompt env (resolve_model line) face_bytes) files (next_input s)
                  (process_prompt_models env (resolve_model line) face_bytes)) as Hall.
    destruct (for_each files (process_prompt env (resolve_model line) face_bytes)
                (next_input s)) as [[r s2] t2].
    unfold trace_of, result_of in *. cbn [fst snd] in *.
    rewrite !requests_app. simpl.
    replace (requests match r with Ret _ => [EPrint MsgComplete] | _ => [] end)
      with (@nil Request) by (now destruct r).
    now rewrite app_nil_r.
  - rewrite (session_eof _ _ _ _ Hline). now split.
Qed.

(** X9.  A prompt file that cannot be read ends the session: when the entry
    is a directory, has vanished, or does not decode, the loop body raises
    out of the loop after it made the run directory, with nothing printed and
    nothing requested, and the files after it are not processed. *)
Theorem unreadable_prompt_ends_session (env : Env) (sel : string) (face_bytes : bytes)
    (filename : string) (rest : list string) (s : State) (f1 : FS) (e : exn) :
  let dir := current_output_dir filename (time_time env (ticks s)) in
  let txt_path := path_join PROMPTS_FOLDER [filename] in
  makedirs_fs (fs s) dir = (Ret tt, f1) ->
  (read_fs f1 txt_path = Raise e
   \/ exists raw, read_fs f1 txt_path = Ret raw /\ decode_text env raw = None
                  /\ e = UnicodeDecodeError) ->
  process_prompt env sel face_bytes filename s
  = (Raise e, set_fs f1 (next_tick s), [EMakedirs dir])
  /\ for_each (filename :: rest) (process_prompt env sel face_bytes) s
     = (Raise e, set_fs f1 (next_tick s), [EMakedirs dir]).
Proof.
  intros dir txt_path Hmk Hread.
  assert (process_prompt env sel face_bytes filename s
          = (Raise e, set_fs f1 (next_tick s), [EMakedirs dir])) as Hbody.
  { unfold process_prompt.
    rewrite (bind_ret _ _ s (next_tick s) (time_time env (ticks s)) []) by reflexivity.
    fold dir.
    assert (makedirs dir (next_tick s) = (Ret tt, set_fs f1 (next_tick s), [EMakedirs dir]))
      as Hmake.
    { unfold makedirs. change (fs (next_tick s)) with (fs s). now rewrite Hmk. }
    rewrite (bind_ret _ _ _ _ _ _ Hmake).
    assert (read_text env txt_path (set_fs f1 (next_tick s))
            = (Raise e, set_fs f1 (next_tick s), [])) as Htext.
    { unfold read_text, bind, read_bytes. change (fs (set_fs f1 (next_tick s))) with f1.
      destruct Hread as [-> | (raw & -> & Hdec & ->)]; [reflexivity|]. now rewrite Hdec. }
    unfold prompt_body. fold txt_path. rewrite (bind_raise _ _ _ _ _ _ Htext). reflexivity. }
  split; [exact Hbody|]. simpl. now rewrite (bind_raise _ _ _ _ _ _ Hbody).
Qed.

Lemma unreadable_prompt_ends_session_witness :
  let env := demo_env ["standing"] always_image ["y"] in
  let f0 : FS := <["prompts" := Dir]> (<["prompts/notes.txt" := Dir]> ∅) in
  let dir := current_output_dir "notes.txt" 1700000000 in
  let f1 := (makedirs_fs f0 dir).2 in
  process_prompt env "gemini-2.5-flash-image" [x01%byte] "notes.txt" (start f0)
  = (Raise IsADirectoryError, set_fs f1 (next_tick (start f0)), [EMakedirs dir])
  /\ for_each ["notes.txt"; "winter.txt"]
       (process_prompt env "gemini-2.5-flash-image" [x01%byte]) (start f0)
     = (Raise IsADirectoryError, set_fs f1 (next_tick (start f0)), [EMakedirs dir]).
Proof.
  apply (unreadable_prompt_ends_session (demo_env ["standing"] always_image ["y"])
           "gemini-2.5-flash-image" [x01%byte] "notes.txt" ["winter.txt"]
           (start (<["prompts" := Dir]> (<["prompts/notes.txt" := Dir]> ∅)))).
  - vm_compute. reflexivity.
  - left. vm_compute. reflexivity.
Defined.

(** ** The clock *)

Lemma keeps_clock_ret {A} (a : A) : keeps_clock (ret a).
Proof. intros s. reflexivity. Qed.

Lemma keeps_clock_raise {A} (e : exn) : keeps_clock (@raise A e).
Proof. intros s. reflexivity. Qed.

Lemma keeps_clock_emit (e : event) : keeps_clock (emit e).
Proof. intros s. reflexivity. Qed.

Lemma keeps_clock_bind {A B} (m : M A) (f : A -> M B) :
  keeps_clock m -> (forall a, keeps_clock (f a)) -> keeps_clock (bind m f).
Proof.
  intros Hm Hf s. specialize (Hm s). unfold bind.
  destruct (m s) as [[[a|e|] s1] t1]; unfold state_of in *; cbn [fst snd] in *;
    try exact Hm.
  specialize (Hf a s1). destruct (f a s1) as [[r s2] t2].
  unfold state_of in *. cbn [fst snd] in *. congruence.
Qed.

Lemma keeps_clock_try {A} (m : M A) (h : exn -> M A) :
  keeps_clock m -> (forall e, keeps_clock (h e)) -> keeps_clock (try_except m h).
Proof.
  intros Hm Hh s. specialize (Hm s). unfold try_except.
  destruct (m s) as [[[a|e|] s1] t1]; unfold state_of in *; cbn [fst snd] in *;
    try exact Hm.
  specialize (Hh e s1). destruct (h e s1) as [[r s2] t2].
  unfold state_of in *. cbn [fst snd] in *. congruence.
Qed.

Lemma keeps_clock_call_service (env : Env) (q : Request) : keeps_clock (call_service env q).
Proof. intros s. reflexivity. Qed.

Lemma keeps_clock_input (env : Env) (q : question) : keeps_clock (input env q).
Proof. intros s. reflexivity. Qed.

Lemma keeps_clock_makedirs (p : string) : keeps_clock (makedirs p).
Proof. intros s. unfold makedirs. now destruct (makedirs_fs (fs s) p). Qed.

Lemma keeps_clock_read_text (env : Env) (p : string) : keeps_clock (read_text env p).
Proof. intros s. destruct (read_text_pure env p s) as (r & ->). reflexivity. Qed.

Lemma keeps_clock_save_image (env : Env) (response : Response) (path : string) :
  keeps_clock (save_image env response path).
Proof. intros s. now destruct (save_image_outcome env response path s). Qed.

Ltac keeps_clock_auto :=
  repeat first
    [ apply keeps_clock_ret | apply keeps_clock_raise | apply keeps_clock_emit
    | apply keeps_clock_call_service | apply keeps_clock_input
    | apply keeps_clock_read_text | apply keeps_clock_save_image
    | apply keeps_clock_bind; [|intros ?]
    | apply keeps_clock_try; [|intros ?] ].

Lemma keeps_clock_pose_loop (env : Env) (sel : string) (mb : bytes) (dir : string)
    (n i : nat) (poses : list string) :
  keeps_clock (pose_loop env sel mb dir n i poses).
Proof.
  revert i. induction poses as [|pose rest IH]; intros i; simpl; [apply keeps_clock_ret|].
  apply keeps_clock_bind; [|intros _; apply IH].
  unfold pose_step, print, sleep. keeps_clock_auto.
Qed.

Lemma keeps_clock_generate (env : Env) (sel : string) (face_bytes : bytes)
    (filename dir prompt_text : string) :
  keeps_clock (generate_for_prompt env sel face_bytes filename dir prompt_text).
Proof.
  unfold generate_for_prompt. apply keeps_clock_bind.
  { unfold master_step, print. keeps_clock_auto. }
  intros [mb|]; [|apply keeps_clock_ret].
  destruct (truthy mb); simpl; [|apply keeps_clock_emit].
  unfold pose_stage, print. apply keeps_clock_bind; [apply keeps_clock_emit|]. intros _.
  apply keeps_clock_bind; [apply keeps_clock_input|]. intros line.
  destruct (poses_confirmed line); simpl; [|apply keeps_clock_emit].
  apply keeps_clock_bind; [apply keeps_clock_emit|]. intros _.
  apply keeps_clock_bind; [apply keeps_clock_pose_loop|]. intros _. apply keeps_clock_emit.
Qed.

Lemma keeps_clock_prompt_body (env : Env) (sel : string) (face_bytes : bytes)
    (filename dir : string) (run_id : Z) :
  keeps_clock (prompt_body env sel face_bytes filename dir run_id).
Proof.
  unfold prompt_body, print.
  do 6 (apply keeps_clock_bind; [keeps_clock_auto | intros ?]).
  apply keeps_clock_generate.
Qed.

(** The loop body reads the clock once and asks for one directory. *)
Lemma process_prompt_clock (env : Env) (sel : string) (face_bytes : bytes)
    (filename : string) (s : State) :
  let run := process_prompt env sel face_bytes filename s in
  ticks (state_of run) = S (ticks s)
  /\ made_dirs (trace_of run) = [current_output_dir filename (time_time env (ticks s))].
Proof.
  cbv zeta. unfold process_prompt.
  rewrite (bind_ret _ _ s (next_tick s) (time_time env (ticks s)) []) by reflexivity.
  set (dir := current_output_dir filename (time_time env (ticks s))).
  unfold state_of at 1, trace_of at 1. cbn [fst snd app].
  pose proof (keeps_clock_prompt_body env sel face_bytes filename dir
                (time_time env (ticks s))) as Hclock.
  pose proof (prompt_body_no_makedirs env sel face_bytes filename dir
                (time_time env (ticks s))) as Hdirs.
  unfold bind, makedirs.
  destruct (makedirs_fs (fs (next_tick s)) dir) as [[[]|e|] f]; cbn [fst snd];
    [|now split|now split].
  specialize (Hclock (set_fs f (next_tick s))). specialize (Hdirs (set_fs f (next_tick s))).
  destruct (prompt_body env sel face_bytes filename dir (time_time env (ticks s))
              (set_fs f (next_tick s))) as [[r s2] t2].
  unfold state_of, trace_of in *. cbn [fst snd] in *. split; [exact Hclock|].
  simpl. now rewrite (made_dirs_none t2 Hdirs).
Qed.

(** X12.  The loop asks for one run directory per prompt file it gets to,
    in the order of the listing, the directory of a file being named after
    the clock reading taken when that file starts: a loop that processes every
    file asks for exactly the directories of [run_dirs], and one that is cut
    short by an exception asks for the first of them. *)
Theorem session_run_directories (env : Env) (sel : string) (face_bytes : bytes)
    (files : list string) (s : State) :
  let run := for_each files (process_prompt env sel face_bytes) s in
  made_dirs (trace_of run) `prefix_of` run_dirs env files (ticks s)
  /\ match result_of run with
     | Ret _ => made_dirs (trace_of run) = run_dirs env files (ticks s)
     | _ => made_dirs (trace_of run) <> []
     end.
Proof.
  cbv zeta. revert s. induction files as [|f rest IH]; intros s.
  - split; [reflexivity|]. reflexivity.
  - destruct (process_prompt_clock env sel face_bytes f s) as [Hclock Hdir].
    cbn [for_each]. unfold bind.
    destruct (process_prompt env sel face_bytes f s) as [[[[]|e|] s1] t1];
      unfold state_of, trace_of, result_of in *; cbn [fst snd] in *.
    + specialize (IH s1). rewrite Hclock in IH.
      destruct (for_each rest (process_prompt env sel face_bytes) s1) as [[r s2] t2].
      cbn [fst snd] in *. rewrite made_dirs_app, Hdir.
      unfold run_dirs in *. cbn [length seq zip_with]. destruct IH as [Hpre Hres].
      split; [now apply prefix_cons|].
      destruct r; [simpl; now rewrite Hres | discriminate | discriminate].
    + rewrite Hdir. unfold run_dirs. cbn [length seq zip_with].
      split; [apply prefix_cons, prefix_nil | discriminate].
    + rewrite Hdir. unfold run_dirs. cbn [length seq zip_with].
      split; [apply prefix_cons, prefix_nil | discriminate].
Qed.

(** ** Which exceptions end the session *)

Lemma mkdir_chain_raises (chain : list string) (f : FS) (e : exn) :
  (mkdir_chain f chain).1 = Raise e -> e = FileExistsError \/ e = NotADirectoryError.
Proof.
  revert f. induction chain as [|p rest IH]; intros f; simpl; [discriminate|].
  destruct (f !! p) as [[|b]|]; try apply IH.
  simpl. intros [= <-]. destruct rest; auto.
Qed.

Lemma mkdir_chain_no_exit (chain : list string) (f : FS) : (mkdir_chain f chain).1 <> Exit.
Proof.
  revert f. induction chain as [|p rest IH]; intros f; simpl; [discriminate|].
  destruct (f !! p) as [[|b]|]; try apply IH. discriminate.
Qed.

Lemma process_prompt_result (env : Env) (sel : string) (face_bytes : bytes)
    (filename : string) (s : State) :
  match result_of (process_prompt env sel face_bytes filename s) with
  | Ret _ => True
  | Raise e => uncaught_kind e
  | Exit => False
  end.
Proof.
  unfold process_prompt.
  rewrite (bind_ret _ _ s (next_tick s) (time_time env (ticks s)) []) by reflexivity.
  set (dir := current_output_dir filename (time_time env (ticks s))).
  unfold result_of at 1. cbn [fst snd].
  unfold bind at 1, makedirs.
  pose proof (mkdir_chain_raises (dir_chain "" dir) (fs (next_tick s))) as Hraise.
  pose proof (mkdir_chain_no_exit (dir_chain "" dir) (fs (next_tick s))) as Hexit.
  unfold makedirs_fs.
  destruct (mkdir_chain (fs (next_tick s)) (dir_chain "" dir)) as [[[]|e|] f];
    cbn [fst snd] in *.
  - set (s1 := set_fs f (next_tick s)). unfold prompt_body.
    destruct (read_text_pure env (path_join PROMPTS_FOLDER [filename]) s1) as (r & Hread).
    destruct r as [text|e|].
    + rewrite (bind_ret _ _ _ _ _ _ Hread).
      unfold bind, print, emit. cbn [fst snd app result_of state_of trace_of].
      destruct (prompt_steps_result env sel face_bytes filename dir (strip text) s1)
        as [Hr | Hr];
        destruct (generate_for_prompt env sel face_bytes filename dir (strip text) s1)
          as [[r2 s2] t2]; unfold result_of in Hr; cbn [fst snd] in *; subst r2; exact I.
    + rewrite (bind_raise _ _ _ _ _ _ Hread). cbn.
      revert Hread. unfold read_text, bind, read_bytes, read_fs.
      destruct (fs s1 !! path_join PROMPTS_FOLDER [filename]) as [[|raw]|].
      * intros [= <-]. exact I.
      * destruct (decode_text env raw); [discriminate|]. intros [= <-]. exact I.
      * intros [= <-]. exact I.
    + exfalso. revert Hread. unfold read_text, bind, read_bytes, read_fs.
      destruct (fs s1 !! path_join PROMPTS_FOLDER [filename]) as [[|raw]|];
        try discriminate.
      destruct (decode_text env raw); discriminate.
  - destruct (Hraise e eq_refl) as [-> | ->]; exact I.
  - now apply Hexit.
Qed.

(** X13.  The exceptions of the service and of the image library never end
    the loop over the prompt files: the loop returns, or it raises an
    exception of the file system, of reading the prompt text, or the end of
    the operator's input.  It never calls [exit]. *)
Theorem session_loop_failures (env : Env) (sel : string) (face_bytes : bytes)
    (files : list string) (s : State) :
  match result_of (for_each files (process_prompt env sel face_bytes) s) with
  | Ret _ => True
  | Raise e =>
      uncaught_kind e
      /\ forall n, e <> ServiceError n /\ e <> AttributeError
                   /\ e <> UnidentifiedImageError /\ e <> ImageSaveError
  | Exit => False
  end.
Proof.
  revert s. induction files as [|f rest IH]; intros s; [exact I|].
  cbn [for_each]. unfold bind.
  pose proof (process_prompt_result env sel face_bytes f s) as Hbody.
  destruct (process_prompt env sel face_bytes f s) as [[[[]|e|] s1] t1];
    unfold result_of in *; cbn [fst snd] in *.
  - specialize (IH s1).
    destruct (for_each rest (process_prompt env sel face_bytes) s1) as [[r s2] t2].
    exact IH.
  - split; [exact Hbody|]. intros n. destruct e; try destruct Hbody; now repeat split.
  - exact Hbody.
Qed.

(** ** Discovery: which files are prompts, and their names *)

Lemma startswith_inv (k pre : string) :
  startswith k pre = true ->
  k = pre +:+ String.substring (String.length pre) (String.length k - String.length pre) k.
Proof.
  revert k. induction pre as [|b pre IH]; intros k H.
  - rewrite append_nil. simpl. now rewrite Nat.sub_0_r, substring_full.
  - destruct k as [|a k]; [discriminate H|]. simpl in H.
    apply andb_true_iff in H as [Hab Hk]. apply Ascii.eqb_eq in Hab as ->.
    rewrite append_cons. simpl. f_equal. now apply IH.
Qed.

Lemma child_name_inv (d k n : string) :
  child_name d k = Some n -> k = d +:+ "/" +:+ n.
Proof.
  unfold child_name. destruct (startswith k (d +:+ "/")) eqn:Hpre; [|discriminate].
  destruct (_ || _); [discriminate|]. intros [= <-].
  rewrite <- append_assoc. now apply startswith_inv.
Qed.



Lemma endswith_inv (s p : string) : endswith s p = true -> exists a, s = a +:+ p.
Proof.
  induction s as [|c s IH]; cbn [endswith]; intros H.
  - rewrite orb_false_r in H. apply String.eqb_eq in H as <-. now exists "".
  - apply orb_true_iff in H as [H | H].
    + apply String.eqb_eq in H as <-. now exists "".
    + destruct (IH H) as (a & ->). now exists (String c a).
Qed.

Lemma contains_char_app (c : ascii) (a b : string) :
  contains_char c (a +:+ b) = contains_char c a || contains_char c b.
Proof.
  induction a as [|x a IH]; [reflexivity|]. rewrite append_cons. simpl.
  now rewrite IH, orb_assoc.
Qed.

Lemma rfind_from_absent (c : ascii) (s : string) (i : Z) :
  contains_char c s = false -> rfind_from c s i = (-1)%Z.
Proof.
  revert i. induction s as [|a s IH]; intros i H; [reflexivity|]. simpl in *.
  apply orb_false_iff in H as [Ha Hs]. now rewrite (IH _ Hs), Ha.
Qed.

Lemma rfind_from_append (c : ascii) (a b : string) (i : Z) :
  (0 <= rfind_from c b (i + Z.of_nat (String.length a)))%Z ->
  rfind_from c (a +:+ b) i = rfind_from c b (i + Z.of_nat (String.length a)).
Proof.
  revert i. induction a as [|x a IH]; intros i H.
  - rewrite append_nil. simpl in *. now rewrite Z.add_0_r in *.
  - rewrite append_cons. cbn [rfind_from]. cbn [String.length] in *.
    replace (i + Z.of_nat (S (String.length a)))%Z
      with (i + 1 + Z.of_nat (String.length a))%Z in * by lia.
    rewrite (IH _ H). apply Z.leb_le in H. now rewrite H.
Qed.

Lemma rfind_from_append_absent (c : ascii) (a b : string) (i : Z) :
  contains_char c b = false -> rfind_from c (a +:+ b) i = rfind_from c a i.
Proof.
  intros Hb. revert i. induction a as [|x a IH]; intros i.
  - rewrite append_nil. now apply rfind_from_absent.
  - rewrite append_cons. cbn [rfind_from]. now rewrite IH.
Qed.

Lemma substring_prefix (a b : string) : String.substring 0 (String.length a) (a +:+ b) = a.
Proof.
  induction a as [|x a IH]; [now destruct b|]. rewrite append_cons. simpl. now rewrite IH.
Qed.

(** X11.  The prompt name of a discovered file is its name without the
    final [.txt], except when nothing but dots comes before it (as in
    [.txt]): then the prompt name is the whole file name. *)
Theorem prompt_name_of_txt_file (n : string) :
  endswith n ".txt" = true ->
  contains_char "/" n = false ->
  exists stem, n = stem +:+ ".txt"
               /\ clean_name n = (if all_dots stem then n else stem).
Proof.
  intros Htxt Hslash. destruct (endswith_inv n ".txt" Htxt) as (stem & ->).
  exists stem. split; [reflexivity|].
  rewrite contains_char_app in Hslash. apply orb_false_iff in Hslash as [Hstem _].
  unfold clean_name, splitext_root, rfind.
  rewrite (rfind_from_append_absent "/" stem ".txt" 0 eq_refl).
  rewrite (rfind_from_absent "/" stem 0 Hstem).
  assert (rfind_from "." (stem +:+ ".txt") 0 = Z.of_nat (String.length stem)) as ->.
  { rewrite rfind_from_append; simpl; rewrite Z.add_0_l;
      [reflexivity | apply Nat2Z.is_nonneg]. }
  replace (-1 <? Z.of_nat (String.length stem))%Z with true
    by (symmetry; apply Z.ltb_lt; apply (Z.lt_le_trans _ 0); [reflexivity|];
        apply Nat2Z.is_nonneg).
  unfold slice_str, take_str. simpl Z.to_nat. rewrite Nat2Z.id, Nat.sub_0_r.
  rewrite !substring_prefix. now destruct (all_dots stem).
Qed.

Lemma prompt_name_of_txt_file_witness :
  exists stem, "winter.txt" = stem +:+ ".txt"
               /\ clean_name "winter.txt" = (if all_dots stem then "winter.txt" else stem).
Proof. apply (prompt_name_of_txt_file "winter.txt"); reflexivity. Defined.

(** ** The whole script: when it asks, when it requests, when it completes *)

Lemma emits_for_each {A} (P : event -> Prop) (body : A -> M unit) (l : list A) :
  (forall x, emits P (body x)) -> emits P (for_each l body).
Proof.
  intros Hbody. induction l as [|x rest IH]; simpl; [apply emits_ret|].
  apply emits_bind; [apply Hbody | intros _; exact IH].
Qed.

Lemma pose_loop_not_complete (env : Env) (sel : string) (mb : bytes) (dir : string)
    (n i : nat) (poses : list string) :
  emits not_complete (pose_loop env sel mb dir n i poses).
Proof.
  apply emits_pose_loop. intros [m| | | | |] He; try exact I.
  destruct m; first [exact I | destruct He].
Qed.

Lemma process_prompt_not_complete (env : Env) (sel : string) (face_bytes : bytes)
    (filename : string) :
  emits not_complete (process_prompt env sel face_bytes filename).
Proof.
  unfold process_prompt.
  apply emits_bind; [intros s; constructor | intros run_id].
  apply emits_bind.
  { intros s. unfold makedirs. destruct (makedirs_fs (fs s) _). repeat constructor. }
  intros _. unfold prompt_body, print.
  do 6 (apply emits_bind; [emits_auto | intros ?]).
  unfold generate_for_prompt. apply emits_bind.
  { unfold master_step, print. emits_auto. }
  intros [mb|]; [|apply emits_ret].
  destruct (truthy mb); simpl; [|apply emits_emit; exact I].
  unfold pose_stage, print.
  apply emits_bind; [apply emits_emit; exact I | intros _].
  apply emits_bind; [apply emits_input; exact I | intros line].
  destruct (poses_confirmed line); simpl; [|apply emits_emit; exact I].
  apply emits_bind; [apply emits_emit; exact I | intros _].
  apply emits_bind; [apply pose_loop_not_complete | intros _].
  apply emits_emit. exact I.
Qed.

Lemma not_complete_absent (t : list event) :
  Forall not_complete t -> ~ In (EPrint MsgComplete) t.
Proof.
  intros H Hin. rewrite List.Forall_forall in H. exact (H _ Hin).
Qed.

Ltac early_end :=
  left; split;
  [ unfold result_of; cbn [fst snd]; discriminate
  | split; [reflexivity | split; [reflexivity | unfold trace_of; cbn [fst snd];
                                                repeat constructor] ] ].

Lemma interactive_loop_cases (env : Env) (s : State) :
  (result_of (interactive_loop env s) <> Ret tt
   /\ asked (trace_of (interactive_loop env s)) = []
   /\ requests (trace_of (interactive_loop env s)) = []
   /\ Forall not_complete (trace_of (interactive_loop env s)))
  \/ exists face files,
       fs s !! REF_FACE_PATH = Some (File face) /\ files <> []
       /\ interactive_loop env s = session env face files s.
Proof.
  unfold interactive_loop, bind, path_exists, read_bytes, read_fs, listdir.
  cbv beta iota.
  destruct (fs s !! REF_FACE_PATH) as [[|face]|] eqn:Hface; cbv beta iota delta [negb];
    rewrite ?Hface; cbv beta iota; [early_end | | early_end].
  destruct (listdir_fs (fs s) PROMPTS_FOLDER) as [names|e|]; cbv beta iota;
    [|early_end|early_end].
  destruct (txt_files names) as [|f rest] eqn:Hfiles; [early_end|].
  right. exists face, (f :: rest). split; [reflexivity|]. split; [discriminate|].
  destruct (session env face (f :: rest) s) as [[r s3] t3]. reflexivity.
Qed.

(** The script up to the session, case by case: it ends early, having asked
    and requested nothing, or it reaches the session with the face bytes and
    a list of prompt files that is not empty. *)
Lemma main_cases (env : Env) (s : State) :
  (result_of (main env s) <> Ret tt
   /\ asked (trace_of (main env s)) = []
   /\ requests (trace_of (main env s)) = []
   /\ Forall not_complete (trace_of (main env s)))
  \/ exists key face files s2,
       API_KEY env = Some key /\ key <> ""
       /\ fs s !! REF_FACE_PATH = Some (File face)
       /\ files <> []
       /\ inputs s2 = inputs s
       /\ main env s
          = (result_of (session env face files s2), state_of (session env face files s2),
             [EMakedirs PROMPTS_FOLDER; EMakedirs OUTPUT_BASE]
             ++ trace_of (session env face files s2)).
Proof.
  unfold main. destruct (API_KEY env) as [[|c key]|] eqn:Hkey;
    [early_end | | early_end].
  pose proof (makedirs_flat PROMPTS_FOLDER s eq_refl) as H1.
  assert (exists s1, (forall k, k <> PROMPTS_FOLDER -> fs s1 !! k = fs s !! k)
                     /\ inputs s1 = inputs s
                     /\ (makedirs PROMPTS_FOLDER s = (Ret tt, s1, [EMakedirs PROMPTS_FOLDER])
                         \/ makedirs PROMPTS_FOLDER s
                            = (Raise FileExistsError, s1, [EMakedirs PROMPTS_FOLDER])))
    as (s1 & Hs1 & Hi1 & Hm1).
  { rewrite H1. destruct (fs s !! PROMPTS_FOLDER) as [[|b]|]; eexists;
      (split; [|split; [|eauto]]);
      try reflexivity; intros k Hk; simpl; rewrite ?lookup_insert_ne by congruence;
      reflexivity. }
  destruct Hm1 as [Hm1 | Hm1];
    [|rewrite (bind_raise _ _ _ _ _ _ Hm1); early_end].
  rewrite (bind_ret _ _ _ _ _ _ Hm1).
  pose proof (makedirs_flat OUTPUT_BASE s1 eq_refl) as H2.
  assert (exists s2, (forall k, k <> OUTPUT_BASE -> fs s2 !! k = fs s1 !! k)
                     /\ inputs s2 = inputs s1
                     /\ (makedirs OUTPUT_BASE s1 = (Ret tt, s2, [EMakedirs OUTPUT_BASE])
                         \/ makedirs OUTPUT_BASE s1
                            = (Raise FileExistsError, s2, [EMakedirs OUTPUT_BASE])))
    as (s2 & Hs2 & Hi2 & Hm2).
  { rewrite H2. destruct (fs s1 !! OUTPUT_BASE) as [[|b]|]; eexists;
      (split; [|split; [|eauto]]);
      try reflexivity; intros k Hk; simpl; rewrite ?lookup_insert_ne by congruence;
      reflexivity. }
  destruct Hm2 as [Hm2 | Hm2];
    [|rewrite (bind_raise _ _ _ _ _ _ Hm2); early_end].
  rewrite (bind_ret _ _ _ _ _ _ Hm2).
  assert (fs s2 !! REF_FACE_PATH = fs s !! REF_FACE_PATH) as Hface
    by (rewrite Hs2, Hs1 by discriminate; reflexivity).
  destruct (interactive_loop_cases env s2)
    as [(Hr & Ha & Hq & Hnc) | (face & files & Hf & Hne & ->)].
  - destruct (interactive_loop env s2) as [[r s3] t3].
    unfold result_of, trace_of in *. cbn [fst snd app] in *. left.
    split; [exact Hr|]. split; [exact Ha|]. split; [exact Hq|].
    repeat constructor. exact Hnc.
  - right. exists (String c key), face, files, s2.
    split; [reflexivity|]. split; [discriminate|]. split; [congruence|].
    split; [exact Hne|]. split; [congruence|].
    destruct (session env face files s2) as [[r s3] t3]. reflexivity.
Qed.


(** X15.  The script returns normally exactly when it printed
    [Session Complete], and then that is the last thing it did; an exit or
    an exception never follows or precedes that line. *)
Theorem session_complete_iff (env : Env) (s : State) :
  let run := main env s in
  (result_of run = Ret tt <-> In (EPrint MsgComplete) (trace_of run))
  /\ (result_of run = Ret tt ->
      exists t, trace_of run = t ++ [EPrint MsgComplete] /\ Forall not_complete t).
Proof.
  cbv zeta. destruct (main_cases env s)
    as [(Hr & _ & _ & Hnc) | (key & face & files & s2 & _ & _ & _ & _ & _ & Hmain)].
  - split; [split|]; intros H; try contradiction.
    now apply not_complete_absent in H.
  - rewrite Hmain. unfold result_of at 1 3, trace_of at 1 3. cbn [fst snd].
    destruct (input_line env (inputs s2)) as [line|] eqn:Hline.
    + rewrite (session_eq _ _ _ _ _ Hline). cbv zeta.
      pose proof (emits_for_each not_complete
                    (process_prompt env (resolve_model line) face) files
                    (process_prompt_not_complete env (resolve_model line) face)
                    (next_input s2)) as Hloop.
      destruct (for_each files (process_prompt env (resolve_model line) face)
                  (next_input s2)) as [[r s3] t3].
      unfold result_of, trace_of in *. cbn [fst snd] in *.
      assert (Forall not_complete
                ([EMakedirs PROMPTS_FOLDER; EMakedirs OUTPUT_BASE]
                 ++ [EPrint MsgMenuTitle; EPrint MsgMenuFlash; EPrint MsgMenuPro;
                     EInput AskModel; EPrint (MsgUsingModel (resolve_model line));
                     EPrint (MsgFound (length files))] ++ t3)) as Hpre.
      { apply Forall_app. split; [repeat constructor|].
        apply Forall_app. split; [repeat constructor | exact Hloop]. }
      destruct r as [[]|e|].
      * split; [split; [intros _|reflexivity]|].
        -- apply in_or_app. right. apply in_or_app. right. apply in_or_app. right. now left.
        -- intros _. eexists. split; [|exact Hpre]. now rewrite <- !app_assoc.
      * rewrite app_nil_r. split; [split|]; intros H; try discriminate H.
        now apply (not_complete_absent _ Hpre) in H.
      * rewrite app_nil_r. split; [split|]; intros H; try discriminate H.
        now apply (not_complete_absent _ Hpre) in H.
    + rewrite (session_eof _ _ _ _ Hline). unfold result_of, trace_of. cbn [fst snd].
      split; [split|]; intros H; try discriminate H.
      simpl in H. intuition discriminate.
Qed.

(** ** The requests of a prompt that can be read *)

(** X16.  A prompt file that can be read sends its master request first:
    the reference face bytes as JPEG with the text of the file, trimmed, set
    in the master template, under the selected model.  Whatever follows are
    pose requests. *)
Theorem master_request_of_prompt (env : Env) (sel : string) (face_bytes : bytes)
    (filename : string) (s : State) (f1 : FS) (raw : bytes) (text : string) :
  let dir := current_output_dir filename (time_time env (ticks s)) in
  makedirs_fs (fs s) dir = (Ret tt, f1) ->
  read_fs f1 (path_join PROMPTS_FOLDER [filename]) = Ret raw ->
  decode_text env raw = Some text ->
  exists poses,
    requests (trace_of (process_prompt env sel face_bytes filename s))
    = {| model := sel; image_data := face_bytes; image_mime := "image/jpeg";
         instruction := master_prompt (strip text) |} :: poses
    /\ Forall (fun q => is_pose_request q = true) poses.
Proof.
  intros dir Hmk Hread Hdec.
  rewrite (process_prompt_generates env sel face_bytes filename s f1 raw text Hmk Hread Hdec).
  fold dir. unfold trace_of at 1. cbn [fst snd].
  change (requests (EMakedirs ?a :: EPrint ?b :: EPrint ?c :: EPrint ?e :: EPrint ?f
                    :: EPrint ?g :: ?t)) with (requests t).
  pose proof (generate_for_prompt_run env sel face_bytes filename dir (strip text)
                (set_fs f1 (next_tick s))) as H. cbv zeta in H.
  assert (forall d (l : bool),
            Forall (fun q => is_pose_request q = true)
              (if l then map (pose_request sel d) (POSES env) else [])) as Hposes.
  { intros d [|]; [|constructor]. apply List.Forall_forall. intros q Hq.
    now apply in_map_iff in Hq as (pose & <- & _). }
  destruct (master_bytes env sel face_bytes (strip text) dir (set_fs f1 (next_tick s)))
    as [d|].
  - destruct H as [_ H].
    destruct (input_line env (inputs (set_fs f1 (next_tick s)))) as [line|].
    + destruct H as [_ ->]. eexists. split; [reflexivity | apply Hposes].
    + destruct H as [_ ->]. exists []. split; [reflexivity | constructor].
  - destruct H as (_ & -> & _). exists []. split; [reflexivity | constructor].
Qed.

Lemma master_request_of_prompt_witness :
  exists poses,
    requests (trace_of (process_prompt (demo_env ["standing"] always_image ["y"])
                          "gemini-2.5-flash-image" [x01%byte] "winter.txt" (start demo_fs)))
    = {| model := "gemini-2.5-flash-image"; image_data := [x01%byte];
         image_mime := "image/jpeg";
         instruction := master_prompt (strip "A red coat in snow.") |} :: poses
    /\ Forall (fun q => is_pose_request q = true) poses.
Proof.
  apply (master_request_of_prompt (demo_env ["standing"] always_image ["y"])
           "gemini-2.5-flash-image" [x01%byte] "winter.txt" (start demo_fs)
           (makedirs_fs demo_fs (current_output_dir "winter.txt" 1700000000)).2
           (list_byte_of_string "A red coat in snow.") "A red coat in snow.").
  - vm_compute. reflexivity.
  - vm_compute. reflexivity.
  - reflexivity.
Defined.

(** X17.  The instruction of a request determines what it was made from:
    two pose instructions are equal only for the same pose label, and two
    master instructions only for the same prompt text. *)
Theorem instructions_determine_text (a b : string) :
  (pose_prompt a = pose_prompt b <-> a = b)
  /\ (master_prompt a = master_prompt b <-> a = b).
Proof.
  split; (split; [|now intros ->]); intros H.
  - unfold pose_prompt in H. repeat apply String.app_inj in H.
    now apply append_inj_r in H.
  - unfold master_prompt in H. repeat apply String.app_inj in H.
    now apply append_inj_r in H.
Qed.
